(** * Latent Spectral Model (examples/lsm/run_lsm.py): shape and value semantics

    A shallow embedding of the tensor code of [run_lsm.py].  A tensor is a
    shape together with its contiguous row-major storage; the operations of
    the script ([view], [permute(...).contiguous()], broadcasting arithmetic,
    [einsum], [softmax], [norm], [sum]) are functions on that representation.
    Real numbers stand for the float values in exact arithmetic; operations
    that raise in Python return [Raises].  Where a property depends on
    rounding, underflow or overflow, the normalizer and the losses are
    embedded a second time on IEEE binary32 values (section "float32
    arithmetic"). *)

From Stdlib Require Import List Arith Lia ZArith Bool.
From Stdlib Require Import Reals Lra.
From Stdlib Require Import SpecFloat.
Import ListNotations.

Set Implicit Arguments.

(** ** Outcomes of the Python code *)

(** The exceptions the modelled code can raise. *)
Inductive exn : Type :=
| ZeroDivisionError
| RuntimeError
| IndexError
| ValueError
| AssertionError.

(** A call returns a value, raises, produces a float result that is [inf]
    or [nan] (which exact real arithmetic cannot hold), or leaves the part
    of the library semantics this development covers. *)
Inductive result (A : Type) : Type :=
| Ok (a : A)
| Raises (e : exn)
| NonFinite
| Unmodelled.

Arguments Ok {A} a.
Arguments Raises {A} e.
Arguments NonFinite {A}.
Arguments Unmodelled {A}.

Definition bind {A B : Type} (r : result A) (f : A -> result B) : result B :=
  match r with
  | Ok a => f a
  | Raises e => Raises e
  | NonFinite => NonFinite
  | Unmodelled => Unmodelled
  end.

Notation "x <- c1 ;; c2" := (bind c1 (fun x => c2))
  (at level 61, c1 at next level, right associativity).


(** ** Shapes and row-major indexing *)

Definition numel (s : list nat) : nat := fold_right Nat.mul 1 s.

(** Flat offset of a multi-index in a contiguous tensor of shape [s]. *)
Fixpoint ravel (s idx : list nat) : nat :=
  match s, idx with
  | _ :: s', i :: idx' => i * numel s' + ravel s' idx'
  | _, _ => 0
  end.

(** Multi-index of a flat offset. *)
Fixpoint unravel (s : list nat) (k : nat) : list nat :=
  match s with
  | [] => []
  | _ :: s' => k / numel s' :: unravel s' (k mod numel s')
  end.

Definition in_bounds (s idx : list nat) : Prop := Forall2 lt idx s.

Record tensor : Type := mkTensor { shape : list nat; data : list R }.

Definition wf (t : tensor) : Prop := length (data t) = numel (shape t).

Definition get (t : tensor) (idx : list nat) : R :=
  nth (ravel (shape t) idx) (data t) 0%R.

(** A fresh contiguous tensor of shape [s] whose entry at [idx] is [g idx]. *)
Definition tabulate (s : list nat) (g : list nat -> R) : tensor :=
  mkTensor s (map (fun k => g (unravel s k)) (seq 0 (numel s))).

(** [t.view(s)] on a contiguous tensor: same storage, new shape. *)
Definition view (t : tensor) (s : list nat) : result tensor :=
  if numel s =? numel (shape t) then Ok (mkTensor s (data t))
  else Raises RuntimeError.

(** Position of [a] in the permutation [perm]. *)
Fixpoint index_of (a : nat) (perm : list nat) : nat :=
  match perm with
  | [] => 0
  | b :: perm' => if a =? b then 0 else S (index_of a perm')
  end.

(** Source multi-index read by output multi-index [j] of [permute(perm)]:
    axis [perm[m]] of the source is axis [m] of the output. *)
Definition unpermute (perm j : list nat) : list nat :=
  map (fun a => nth (index_of a perm) j 0) (seq 0 (length perm)).

(** [t.permute(perm).contiguous()]. *)
Definition permute (perm : list nat) (t : tensor) : tensor :=
  tabulate (map (fun a => nth a (shape t) 0) perm)
           (fun j => get t (unpermute perm j)).

(** Python's [a // b] on non-negative integers. *)
Definition floordiv (a b : nat) : result nat :=
  if b =? 0 then Raises ZeroDivisionError else Ok (a / b).

(** ** Sums and broadcasting *)

(** [sum_{i < n} f i]. *)
Definition rsum (f : nat -> R) (n : nat) : R :=
  fold_right Rplus 0%R (map f (seq 0 n)).

(** Size of one broadcast axis. *)
Definition bdim (a b : nat) : option nat :=
  if a =? b then Some a
  else if a =? 1 then Some b
  else if b =? 1 then Some a
  else None.

(** Broadcast of two shapes given trailing axis first. *)
Fixpoint broadcast_rev (r1 r2 : list nat) : option (list nat) :=
  match r1, r2 with
  | [], _ => Some r2
  | _, [] => Some r1
  | a :: r1', b :: r2' =>
      match bdim a b, broadcast_rev r1' r2' with
      | Some d, Some r => Some (d :: r)
      | _, _ => None
      end
  end.

Definition broadcast_shapes (s1 s2 : list nat) : option (list nat) :=
  option_map (@rev nat) (broadcast_rev (rev s1) (rev s2)).

(** Index read in an operand of reversed shape [rs] for the reversed output
    index [ridx]: axes of size 1 are read at 0, missing leading axes are
    dropped. *)
Fixpoint bclip_rev (rs ridx : list nat) : list nat :=
  match rs, ridx with
  | d :: rs', i :: ridx' => (if d =? 1 then 0 else i) :: bclip_rev rs' ridx'
  | _, _ => []
  end.

Definition bindex (s idx : list nat) : list nat :=
  rev (bclip_rev (rev s) (rev idx)).

(** [t.expand(s)]: the operand as seen from an output of shape [s]. *)
Definition expand (s : list nat) (t : tensor) : tensor :=
  tabulate s (fun idx => get t (bindex (shape t) idx)).

(** An elementwise binary operation with broadcasting. *)
Definition bop (f : R -> R -> R) (a b : tensor) : result tensor :=
  match broadcast_shapes (shape a) (shape b) with
  | Some s =>
      Ok (tabulate s (fun idx => f (get a (bindex (shape a) idx))
                                   (get b (bindex (shape b) idx))))
  | None => Raises RuntimeError
  end.

Definition is_zero (r : R) : bool := if Req_dec_T r 0 then true else false.

(** [a / b] on tensors: a zero divisor gives [inf] or [nan]. *)
Definition tdiv (a b : tensor) : result tensor :=
  match broadcast_shapes (shape a) (shape b) with
  | Some s =>
      if existsb is_zero (data (expand s b)) then NonFinite
      else bop Rdiv a b
  | None => Raises RuntimeError
  end.

(** [t + c] for a Python float [c]. *)
Definition add_scalar (t : tensor) (c : R) : tensor :=
  mkTensor (shape t) (map (fun v => (v + c)%R) (data t)).

(** ** UnitGaussianNormalizer *)

Module UnitGaussianNormalizer.

Record t : Type := mk { mean : tensor; std : tensor; eps : R }.

(** [__init__]: [torch.mean(x, 0)] and [torch.std(x, 0)] (unbiased) over
    the sample axis.  With fewer than two samples, and on a tensor without
    axes, the code raises nothing and builds a normalizer whose standard
    deviation is [nan]: [NonFinite] stands for that normalizer, which real
    numbers cannot hold. *)
Definition init (x : tensor) (eps : R) : result t :=
  match shape x with
  | n :: s =>
      if n <? 2 then NonFinite
      else
        let m idx := (rsum (fun i => get x (i :: idx)) n / INR n)%R in
        Ok (mk (tabulate s m)
               (tabulate s (fun idx =>
                  sqrt (rsum (fun i => (get x (i :: idx) - m idx) ^ 2) n
                        / (INR n - 1))%R))
               eps)
  | [] => NonFinite
  end.

Definition encode (self : t) (x : tensor) : result tensor :=
  d <- bop Rminus x (mean self) ;;
  tdiv d (add_scalar (std self) (eps self)).

(** [decode(x, sample_idx=None)], the only form the script calls. *)
Definition decode (self : t) (x : tensor) (sample_idx : option (list nat))
  : result tensor :=
  match sample_idx with
  | None =>
      let std := add_scalar (std self) (eps self) in
      let mean := mean self in
      y <- bop Rmult x std ;;
      bop Rplus y mean
  | Some _ => Unmodelled
  end.


End UnitGaussianNormalizer.

(** ** LpLoss

    The loss in exact arithmetic, for any norm order; the float32
    computation with the norm order 2 is [LpLoss32] below. *)

(** [c * t] for a Python float [c]. *)
Definition mul_scalar (c : R) (t : tensor) : tensor :=
  mkTensor (shape t) (map (fun v => (c * v)%R) (data t)).

(** [x.reshape(n, -1)]. *)
Definition reshape_rows (n : nat) (x : tensor) : result tensor :=
  if n =? 0 then Raises RuntimeError
  else if numel (shape x) mod n =? 0
       then Ok (mkTensor [n; numel (shape x) / n] (data x))
       else Raises RuntimeError.

(** The [n] rows of length [m] of a contiguous matrix. *)
Fixpoint rows (n m : nat) (l : list R) : list (list R) :=
  match n with
  | 0 => []
  | S n' => firstn m l :: rows n' m (skipn m l)
  end.

(** [b ** e] for a base [b >= 0] and an exponent [e > 0]. *)
Definition rpow (b e : R) : R := if Rlt_dec 0 b then Rpower b e else 0%R.

Definition rsum_list (l : list R) : R := fold_right Rplus 0%R l.

(** The p-norm of a vector: [(sum |a|^p)^(1/p)]. *)
Definition vnorm (p : R) (v : list R) : R :=
  rpow (rsum_list (map (fun a => rpow (Rabs a) p) v)) (1 / p).

(** [torch.norm(t, p, 1)] on a matrix. *)
Definition norm_dim1 (p : R) (t : tensor) : result tensor :=
  match shape t with
  | [n; m] => Ok (mkTensor [n] (map (vnorm p) (rows n m (data t))))
  | _ => Unmodelled
  end.

(** [torch.sum(t)]. *)
Definition tsum (t : tensor) : R := rsum_list (data t).

(** Python's [b ** e] on floats for a positive base; a negative base gives
    plus or minus one or a complex number and is left out. *)
Definition float_pow (b e : R) : result R :=
  if Rlt_dec 0 b then Ok (Rpower b e) else Unmodelled.

(** Python's [a / b] on floats. *)
Definition float_div (a b : R) : result R :=
  if Req_dec_T b 0 then Raises ZeroDivisionError else Ok (a / b)%R.

Module LpLoss.

Record t : Type := mk { d : R; p : R }.

(** [__init__]: [assert d > 0 and p > 0]. *)
Definition init (d p : R) : result t :=
  if Rlt_dec 0 d then
    if Rlt_dec 0 p then Ok (mk d p) else Raises AssertionError
  else Raises AssertionError.

Definition abs (self : t) (x y : tensor) : result R :=
  match shape x with
  | num_examples :: size1 :: _ =>
      h <- float_div 1 (INR size1 - 1) ;;
      c <- float_pow h (d self / p self) ;;
      xr <- reshape_rows num_examples x ;;
      yr <- reshape_rows num_examples y ;;
      diff <- bop Rminus xr yr ;;
      norms <- norm_dim1 (p self) diff ;;
      let all_norms := mul_scalar c norms in
      Ok (tsum all_norms)
  | _ => Raises IndexError
  end.

Definition rel (self : t) (x y : tensor) : result R :=
  match shape x with
  | num_examples :: _ =>
      xr <- reshape_rows num_examples x ;;
      yr <- reshape_rows num_examples y ;;
      diff <- bop Rminus xr yr ;;
      diff_norms <- norm_dim1 (p self) diff ;;
      y_norms <- norm_dim1 (p self) yr ;;
      q <- tdiv diff_norms y_norms ;;
      Ok (tsum q)
  | [] => Raises IndexError
  end.

(** [__call__]. *)
Definition call (self : t) (x y : tensor) : result R := rel self x y.

(** The norms of the samples of a batched field, as [rel] computes them for
    its divisor. *)
Definition sample_norms (self : t) (y : tensor) : list R :=
  match shape y with
  | n :: _ => map (vnorm (p self)) (rows n (numel (shape y) / n) (data y))
  | [] => []
  end.

End LpLoss.

(** ** float32 arithmetic

    The tensors of the script hold IEEE binary32 values, and a Python float
    is a binary64 value that is rounded to binary32 when it meets a tensor.
    Both are [spec_float] with the operations of [SpecFloat] (round to
    nearest, ties to even), so underflow, overflow, [inf] and [nan] are
    values here. *)

Module F32.

Definition prec : Z := 24.
Definition emax : Z := 128.

Definition add : spec_float -> spec_float -> spec_float := SFadd prec emax.
Definition sub : spec_float -> spec_float -> spec_float := SFsub prec emax.
Definition mul : spec_float -> spec_float -> spec_float := SFmul prec emax.
Definition div : spec_float -> spec_float -> spec_float := SFdiv prec emax.
Definition sqrt : spec_float -> spec_float := SFsqrt prec emax.

(** The float32 nearest to [m * 2^e]. *)
Definition ldexp (m e : Z) : spec_float := binary_normalize prec emax m e false.

(** A float32 as a tensor holds it: in canonical form and in range. *)
Definition valid (x : spec_float) : bool := valid_binary prec emax x.

(** Neither [inf] nor [nan]. *)
Definition finite (x : spec_float) : bool :=
  match x with
  | S754_zero _ | S754_finite _ _ _ => true
  | _ => false
  end.

(** A finite number above zero. *)
Definition positive (x : spec_float) : bool :=
  match x with
  | S754_finite false _ _ => true
  | _ => false
  end.

(** A Python float as an operand of a float32 tensor. *)
Definition of_float64 (x : spec_float) : spec_float :=
  match x with
  | S754_finite s m e => binary_normalize prec emax (cond_Zopp s (Zpos m)) e false
  | _ => x
  end.

End F32.

Module F64.

Definition prec : Z := 53.
Definition emax : Z := 1024.

Definition sub : spec_float -> spec_float -> spec_float := SFsub prec emax.
Definition div : spec_float -> spec_float -> spec_float := SFdiv prec emax.

(** The Python float nearest to [m * 2^e]; [ldexp n 0] is [float(n)]. *)
Definition ldexp (m e : Z) : spec_float := binary_normalize prec emax m e false.

End F64.

(** A float32 tensor: a shape and its contiguous row-major storage. *)
Record ftensor : Type := mkFTensor { fshape : list nat; fdata : list spec_float }.

Definition fwf (t : ftensor) : Prop := length (fdata t) = numel (fshape t).

Definition fget (t : ftensor) (idx : list nat) : spec_float :=
  nth (ravel (fshape t) idx) (fdata t) S754_nan.

Definition ftabulate (s : list nat) (g : list nat -> spec_float) : ftensor :=
  mkFTensor s (map (fun k => g (unravel s k)) (seq 0 (numel s))).

(** An elementwise unary operation. *)
Definition fmap (f : spec_float -> spec_float) (t : ftensor) : ftensor :=
  mkFTensor (fshape t) (map f (fdata t)).

(** An elementwise binary operation with broadcasting. *)
Definition fbop (f : spec_float -> spec_float -> spec_float) (a b : ftensor)
  : result ftensor :=
  match broadcast_shapes (fshape a) (fshape b) with
  | Some s =>
      Ok (ftabulate s (fun idx => f (fget a (bindex (fshape a) idx))
                                    (fget b (bindex (fshape b) idx))))
  | None => Raises RuntimeError
  end.

(** [t + c] and [c * t] for a Python float [c]. *)
Definition fadd_scalar (t : ftensor) (c : spec_float) : ftensor :=
  fmap (fun v => F32.add v (F32.of_float64 c)) t.

Definition fmul_scalar (c : spec_float) (t : ftensor) : ftensor :=
  fmap (fun v => F32.mul (F32.of_float64 c) v) t.

(** [x.reshape(n, -1)]. *)
Definition freshape_rows (n : nat) (x : ftensor) : result ftensor :=
  if n =? 0 then Raises RuntimeError
  else if numel (fshape x) mod n =? 0
       then Ok (mkFTensor [n; numel (fshape x) / n] (fdata x))
       else Raises RuntimeError.

Fixpoint frows (n m : nat) (l : list spec_float) : list (list spec_float) :=
  match n with
  | 0 => []
  | S n' => firstn m l :: frows n' m (skipn m l)
  end.

(** A float32 reduction by addition.  Torch accumulates in float32 and does
    not fix the order in which it adds; the order here is from left to
    right. *)
Definition fsum (l : list spec_float) : spec_float :=
  fold_left F32.add l (S754_zero false).

(** The 2-norm of a vector as [torch.norm] computes it: the square root of
    the float32 sum of the float32 squares. *)
Definition fnorm2 (v : list spec_float) : spec_float :=
  F32.sqrt (fsum (map (fun a => F32.mul a a) v)).

(** [torch.norm(t, p, 1)] on a matrix, for the norm order 2. *)
Definition fnorm_dim1 (p : Z) (t : ftensor) : result ftensor :=
  if (p =? 2)%Z then
    match fshape t with
    | [n; m] => Ok (mkFTensor [n] (map fnorm2 (frows n m (fdata t))))
    | _ => Unmodelled
    end
  else Unmodelled.

(** [UnitGaussianNormalizer.encode] and [decode] on float32 tensors, for a
    normalizer whose [mean] and [std] are given. *)
Module UnitGaussianNormalizer32.

Record t : Type := mk { mean : ftensor; std : ftensor; eps : spec_float }.

Definition encode (self : t) (x : ftensor) : result ftensor :=
  d <- fbop F32.sub x (mean self) ;;
  fbop F32.div d (fadd_scalar (std self) (eps self)).

Definition decode (self : t) (x : ftensor) : result ftensor :=
  y <- fbop F32.mul x (fadd_scalar (std self) (eps self)) ;;
  fbop F32.add y (mean self).

End UnitGaussianNormalizer32.

(** [LpLoss] on float32 tensors, for integer [d] and [p] as the script
    passes them.  The norm order 2 is covered, and [h ** (d / p)] where the
    exponent is [1.0], that is for [d = p]. *)
Module LpLoss32.

Record t : Type := mk { d : Z; p : Z }.

Definition init (d p : Z) : result t :=
  if ((0 <? d) && (0 <? p))%Z then Ok (mk d p) else Raises AssertionError.

(** [1.0 / (size1 - 1.0)] on Python floats. *)
Definition mesh_width (size1 : nat) : result spec_float :=
  match F64.sub (F64.ldexp (Z.of_nat size1) 0) (F64.ldexp 1 0) with
  | S754_zero _ => Raises ZeroDivisionError
  | den => Ok (F64.div (F64.ldexp 1 0) den)
  end.

Definition abs (self : t) (x y : ftensor) : result spec_float :=
  match fshape x with
  | num_examples :: size1 :: _ =>
      h <- mesh_width size1 ;;
      c <- (if (d self =? p self)%Z then Ok h else Unmodelled) ;;
      xr <- freshape_rows num_examples x ;;
      yr <- freshape_rows num_examples y ;;
      diff <- fbop F32.sub xr yr ;;
      norms <- fnorm_dim1 (p self) diff ;;
      let all_norms := fmul_scalar c norms in
      Ok (fsum (fdata all_norms))
  | _ => Raises IndexError
  end.

Definition rel (self : t) (x y : ftensor) : result spec_float :=
  match fshape x with
  | num_examples :: _ =>
      xr <- freshape_rows num_examples x ;;
      yr <- freshape_rows num_examples y ;;
      diff <- fbop F32.sub xr yr ;;
      diff_norms <- fnorm_dim1 (p self) diff ;;
      y_norms <- fnorm_dim1 (p self) yr ;;
      q <- fbop F32.div diff_norms y_norms ;;
      Ok (fsum (fdata q))
  | [] => Raises IndexError
  end.

(** The norms of the samples of a batched field, the divisors of [rel]. *)
Definition sample_norms (y : ftensor) : list spec_float :=
  match fshape y with
  | n :: _ => map fnorm2 (frows n (numel (fshape y) / n) (fdata y))
  | [] => []
  end.

End LpLoss32.



Definition example_threes32 : ftensor := mkFTensor [1; 2] [F32.ldexp 3 0; F32.ldexp 3 0].

(** ** Primitives used by the Neural Spectral Block *)

(** [torch.cat([t1, t2], dim=-1)] for two rank-4 tensors. *)
Definition cat_last (t1 t2 : tensor) : result tensor :=
  match shape t1, shape t2 with
  | [B; C; N; M1], [B'; C'; N'; M2] =>
      if (B =? B') && (C =? C') && (N =? N') then
        Ok (tabulate [B; C; N; M1 + M2]
              (fun idx =>
                 match idx with
                 | [b; c; n; m] =>
                     if m <? M1 then get t1 [b; c; n; m] else get t2 [b; c; n; m - M1]
                 | _ => 0%R
                 end))
      else Raises RuntimeError
  | _, _ => Unmodelled
  end.

(** [fn(modes_list[None, None, None, :] * x[:, :, :, None] * math.pi)] for
    a token tensor [x] of shape (B, C, N), the only rank [forward] passes. *)
Definition basis_apply (fn : R -> R) (modes x : tensor) : result tensor :=
  match shape modes, shape x with
  | [M], [B; C; N] =>
      Ok (tabulate [B; C; N; M]
            (fun idx =>
               match idx with
               | [b; c; n; m] => fn (get modes [m] * get x [b; c; n] * PI)%R
               | _ => 0%R
               end))
  | _, _ => Unmodelled
  end.

(** [torch.einsum("bhlc,bhsc->bhls", q, k)] on operands whose batch, head
    and channel sizes agree, as they do wherever the block calls it
    (einsum would broadcast axes of size 1). *)
Definition einsum_bhlc_bhsc (q k : tensor) : result tensor :=
  match shape q, shape k with
  | [B; H; L; C], [B'; H'; K; C'] =>
      if (B =? B') && (H =? H') && (C =? C') then
        Ok (tabulate [B; H; L; K]
              (fun idx =>
                 match idx with
                 | [b; h; l; s] =>
                     rsum (fun c => (get q [b; h; l; c] * get k [b; h; s; c])%R) C
                 | _ => 0%R
                 end))
      else Unmodelled
  | _, _ => Raises RuntimeError
  end.

(** [torch.einsum("bhls,bhsc->bhlc", attn, v)], likewise. *)
Definition einsum_bhls_bhsc (attn v : tensor) : result tensor :=
  match shape attn, shape v with
  | [B; H; L; K], [B'; H'; K'; C] =>
      if (B =? B') && (H =? H') && (K =? K') then
        Ok (tabulate [B; H; L; C]
              (fun idx =>
                 match idx with
                 | [b; h; l; c] =>
                     rsum (fun s => (get attn [b; h; l; s] * get v [b; h; s; c])%R) K
                 | _ => 0%R
                 end))
      else Unmodelled
  | _, _ => Raises RuntimeError
  end.

(** [nn.Softmax(dim=-1)]: each entry's exponential over the sum of the
    exponentials along the last axis. *)
Definition softmax (t : tensor) : tensor :=
  tabulate (shape t)
    (fun idx =>
       (exp (get t idx)
        / rsum (fun j => exp (get t (removelast idx ++ [j]))) (last (shape t) 0%nat))%R).

(** ** NeuralSpectralBlock2d *)

Module NeuralSpectralBlock2d.

(** The fields [forward] reads.  The learned parameters ([weights],
    [latent] and the two 1x1 convolutions) do not enter the functions
    below. *)
Record t : Type := mk {
  patch_size : nat * nat;
  width : nat;
  num_basis : nat;
  modes_list : tensor;
  head : nat;
  num_token : nat
}.

(** [__init__]: [modes_list] is
    [(1.0 / float(num_basis)) * tensor([i for i in range(num_basis)])];
    the scale [1 / width] of the initial parameters raises for width 0. *)
Definition init (width num_basis : nat) (patch_size : nat * nat)
  (num_token : nat) : result t :=
  if num_basis =? 0 then Raises ZeroDivisionError
  else if width =? 0 then Raises ZeroDivisionError
  else Ok (mk patch_size width num_basis
              (mkTensor [num_basis]
                 (map (fun i => (1 / INR num_basis * INR i)%R) (seq 0 num_basis)))
              8 num_token).

(** The attention weights inside [self_attn]:
    [self.softmax(torch.einsum("bhlc,bhsc->bhls", q, k))]. *)
Definition attn_weights (self : t) (q k : tensor) : result tensor :=
  scores <- einsum_bhlc_bhsc q k ;;
  Ok (softmax scores).

Definition self_attn (self : t) (q k v : tensor) : result tensor :=
  attn <- attn_weights self q k ;;
  einsum_bhls_bhsc attn v.

Definition get_basis (self : t) (x : tensor) : result tensor :=
  x_sin <- basis_apply sin (modes_list self) x ;;
  x_cos <- basis_apply cos (modes_list self) x ;;
  cat_last x_sin x_cos.

(** The patchify step of [forward]. *)
Definition patchify (self : t) (x : tensor) : result tensor :=
  match shape x with
  | [B; C; H; W] =>
      hp <- floordiv H (fst (patch_size self)) ;;
      wp <- floordiv W (snd (patch_size self)) ;;
      x1 <- view x [B; C; hp; fst (patch_size self); wp; snd (patch_size self)] ;;
      view (permute [0; 2; 4; 1; 3; 5] x1)
           [B * hp * wp; C; fst (patch_size self); snd (patch_size self)]
  | _ => Raises ValueError
  end.

(** The de-patchify step of [forward], for the sizes [B, C, H, W] unpacked
    from the shape of the input. *)
Definition depatchify (self : t) (B C H W : nat) (x : tensor) : result tensor :=
  hp <- floordiv H (fst (patch_size self)) ;;
  wp <- floordiv W (snd (patch_size self)) ;;
  x1 <- view x [B; hp; wp; C; fst (patch_size self); snd (patch_size self)] ;;
  view (permute [0; 3; 1; 4; 2; 5] x1) [B; C; H; W].

(** [forward]: patchify, the spectral step on the patches (encoder
    attention, basis transition, decoder attention; here a parameter), and
    de-patchify. *)
Definition forward (spectral : tensor -> result tensor) (self : t) (x : tensor)
  : result tensor :=
  match shape x with
  | [B; C; H; W] =>
      xp <- patchify self x ;;
      y <- spectral xp ;;
      depatchify self B C H W y
  | _ => Raises ValueError
  end.

End NeuralSpectralBlock2d.

(** What the specification describes for the attention weights: the dot
    products divided by the square root of the per-head channel dimension
    before the softmax. *)
Definition spec_scaled_attn_weights (q k : tensor) : result tensor :=
  scores <- einsum_bhlc_bhsc q k ;;
  Ok (softmax (tabulate (shape scores)
                 (fun idx => (get scores idx / sqrt (INR (last (shape q) 0%nat)))%R))).

(** The query-key dot product of head [h] of sample [b]. *)
Definition qk_dot (q k : tensor) (C b h l s : nat) : R :=
  rsum (fun c => (get q [b; h; l; c] * get k [b; h; s; c])%R) C.

(** A block of width 8 with two basis functions, patches of 2x2 points and
    four latent tokens, as [__init__] builds it. *)
Definition example_block : NeuralSpectralBlock2d.t :=
  NeuralSpectralBlock2d.mk (2, 2) 8 2
    (mkTensor [2] [1 / INR 2 * INR 0; 1 / INR 2 * INR 1]%R) 8 4.

(** One query [1;0;0;0] against the keys [2;0;0;0] and [0;0;0;0], a single
    head of channel dimension 4. *)
Definition example_q : tensor := mkTensor [1; 1; 1; 4] [1; 0; 0; 0]%R.
Definition example_k : tensor := mkTensor [1; 1; 2; 4] [2; 0; 0; 0; 0; 0; 0; 0]%R.

(** ** Shapes through the layers of the network

    The spatial bookkeeping of [LSM_2D.forward]: each layer as a function
    on shapes that fails where the layer rejects its input.  The check of
    [BatchNorm2d] in training mode against a single value per channel
    depends on the mode of the module and is not included. *)

Definition view_shape (old new : list nat) : result (list nat) :=
  if numel new =? numel old then Ok new else Raises RuntimeError.

(** [nn.Linear(in_features, out_features)] on a rank-4 input. *)
Definition Linear_shape (in_features out_features : nat) (s : list nat)
  : result (list nat) :=
  match s with
  | [B; H; W; C] =>
      if C =? in_features then Ok [B; H; W; out_features] else Raises RuntimeError
  | _ => Unmodelled
  end.

(** [nn.Conv2d(in_channels, out_channels, kernel_size, padding=pad)]. *)
Definition Conv2d_shape (in_channels out_channels kernel_size pad : nat)
  (s : list nat) : result (list nat) :=
  match s with
  | [B; C; H; W] =>
      if C =? in_channels then
        if (H + 2 * pad <? kernel_size) || (W + 2 * pad <? kernel_size)
        then Raises RuntimeError
        else Ok [B; out_channels;
                 H + 2 * pad - kernel_size + 1; W + 2 * pad - kernel_size + 1]
      else Raises RuntimeError
  | _ => Unmodelled
  end.

Definition BatchNorm2d_shape (num_features : nat) (s : list nat)
  : result (list nat) :=
  match s with
  | [B; C; H; W] => if C =? num_features then Ok s else Raises RuntimeError
  | _ => Raises ValueError
  end.

Definition DoubleConv_shape (in_channels out_channels : nat)
  (mid_channels : option nat) (s : list nat) : result (list nat) :=
  let mid := match mid_channels with
             | Some m => if m =? 0 then out_channels else m
             | None => out_channels
             end in
  s1 <- Conv2d_shape in_channels mid 3 1 s ;;
  s2 <- BatchNorm2d_shape mid s1 ;;
  s3 <- Conv2d_shape mid out_channels 3 1 s2 ;;
  BatchNorm2d_shape out_channels s3.

(** [nn.MaxPool2d(2)]. *)
Definition MaxPool2d_shape (s : list nat) : result (list nat) :=
  match s with
  | [B; C; H; W] =>
      if (H / 2 =? 0) || (W / 2 =? 0) then Raises RuntimeError
      else Ok [B; C; H / 2; W / 2]
  | _ => Unmodelled
  end.

Definition Down_shape (in_channels out_channels : nat) (s : list nat)
  : result (list nat) :=
  s1 <- MaxPool2d_shape s ;;
  DoubleConv_shape in_channels out_channels None s1.

(** One axis under [F.pad]: a negative amount crops. *)
Definition pad_dim (n : nat) (before after : Z) : result nat :=
  let r := (Z.of_nat n + before + after)%Z in
  if (r <? 0)%Z then Raises RuntimeError else Ok (Z.to_nat r).

(** [F.pad(x, [left, right, top, bottom])] on a rank-4 input. *)
Definition F_pad (left right top bottom : Z) (s : list nat) : result (list nat) :=
  match s with
  | [B; C; H; W] =>
      W' <- pad_dim W left right ;;
      H' <- pad_dim H top bottom ;;
      Ok [B; C; H'; W']
  | _ => Unmodelled
  end.

(** [torch.cat([s2, s1], dim=1)]. *)
Definition cat_channels (s2 s1 : list nat) : result (list nat) :=
  match s2, s1 with
  | [B2; C2; H2; W2], [B1; C1; H1; W1] =>
      if (B2 =? B1) && (H2 =? H1) && (W2 =? W1) then Ok [B2; C2 + C1; H2; W2]
      else Raises RuntimeError
  | _, _ => Raises RuntimeError
  end.

(** [Up.forward(x1, x2)]: upsample [x1] by two, pad it to the size of the
    skip map [x2], concatenate, convolve. *)
Definition Up_shape (in_channels out_channels : nat) (s1 s2 : list nat)
  : result (list nat) :=
  match s1, s2 with
  | [B1; C1; H1; W1], [B2; C2; H2; W2] =>
      let diffY := (Z.of_nat H2 - Z.of_nat (H1 * 2))%Z in
      let diffX := (Z.of_nat W2 - Z.of_nat (W1 * 2))%Z in
      s1' <- F_pad (diffX / 2) (diffX - diffX / 2) (diffY / 2) (diffY - diffY / 2)
                   [B1; C1; H1 * 2; W1 * 2] ;;
      s <- cat_channels s2 s1' ;;
      DoubleConv_shape in_channels out_channels (Some (in_channels / 2)) s
  | _, _ => Unmodelled
  end.

Definition OutConv_shape (in_channels out_channels : nat) (s : list nat)
  : result (list nat) :=
  Conv2d_shape in_channels out_channels 1 0 s.

(** [NeuralSpectralBlock2d.forward]: the two reshapes carry the numel check
    of [view]; the 1x1 convolutions of the attention need [width] channels
    and the split into 8 heads is a [view] as well.  The shape comes back
    unchanged. *)
Definition NeuralSpectralBlock2d_shape (width : nat) (patch_size : nat * nat)
  (s : list nat) : result (list nat) :=
  match s with
  | [B; C; H; W] =>
      hp <- floordiv H (fst patch_size) ;;
      wp <- floordiv W (snd patch_size) ;;
      s1 <- view_shape s [B; C; hp; fst patch_size; wp; snd patch_size] ;;
      s2 <- view_shape [B; hp; wp; C; fst patch_size; snd patch_size]
                       [B * hp * wp; C; fst patch_size; snd patch_size] ;;
      s3 <- Conv2d_shape width (width * 2) 1 0 s2 ;;
      _ <- view_shape [B * hp * wp; fst patch_size * snd patch_size; C * 2]
                      [B * hp * wp; fst patch_size * snd patch_size; 8; C / 8; 2] ;;
      s4 <- Conv2d_shape width width 1 0 s2 ;;
      _ <- view_shape s4 [B; hp; wp; C; fst patch_size; snd patch_size] ;;
      view_shape [B; C; hp; fst patch_size; wp; snd patch_size] [B; C; H; W]
  | _ => Raises ValueError
  end.

(** Length of [x[:-p]] on an axis of size [n]. *)
Definition slice_to_neg (n : nat) (p : Z) : nat :=
  if (0 <? p)%Z then Z.to_nat (Z.max (Z.of_nat n - p) 0)
  else Z.to_nat (Z.min (- p) (Z.of_nat n)).

Module LSM_2D.

Record args : Type := mk_args {
  in_dim : nat;
  out_dim : nat;
  d_model : nat;
  num_token : nat;
  num_basis : nat;
  patch_size : nat * nat;
  padding : list Z
}.

(** [not all(item == 0 for item in self.padding)]. *)
Definition padding_enabled (a : args) : bool :=
  negb (forallb (fun item => (item =? 0)%Z) (padding a)).

Definition padding_at (a : args) (i : nat) : result Z :=
  match nth_error (padding a) i with
  | Some v => Ok v
  | None => Raises IndexError
  end.

(** The shape of [forward(x)] for an input of shape [s]. *)
Definition forward_shape (a : args) (s : list nat) : result (list nat) :=
  let width := d_model a in
  let ps := patch_size a in
  match s with
  | [B; H; W; C] =>
      (* grid, cat, fc0, permute *)
      x <- Linear_shape (in_dim a + 2) width [B; H; W; C + 2] ;;
      let x := match x with [b; h; w; c] => [b; c; h; w] | _ => x end in
      x <- (if padding_enabled a then
              p0 <- padding_at a 0 ;;
              p1 <- padding_at a 1 ;;
              F_pad 0 p0 0 p1 x
            else Ok x) ;;
      x1 <- DoubleConv_shape width width None x ;;
      x2 <- Down_shape width (width * 2) x1 ;;
      x3 <- Down_shape (width * 2) (width * 4) x2 ;;
      x4 <- Down_shape (width * 4) (width * 8) x3 ;;
      x5 <- Down_shape (width * 8) (width * 16 / 2) x4 ;;
      y5 <- NeuralSpectralBlock2d_shape (width * 16 / 2) ps x5 ;;
      y4 <- NeuralSpectralBlock2d_shape (width * 8) ps x4 ;;
      x <- Up_shape (width * 16) (width * 8 / 2) y5 y4 ;;
      y3 <- NeuralSpectralBlock2d_shape (width * 4) ps x3 ;;
      x <- Up_shape (width * 8) (width * 4 / 2) x y3 ;;
      y2 <- NeuralSpectralBlock2d_shape (width * 2) ps x2 ;;
      x <- Up_shape (width * 4) (width * 2 / 2) x y2 ;;
      y1 <- NeuralSpectralBlock2d_shape width ps x1 ;;
      x <- Up_shape (width * 2) width x y1 ;;
      x <- OutConv_shape width width x ;;
      x <- (if padding_enabled a then
              p0 <- padding_at a 0 ;;
              p1 <- padding_at a 1 ;;
              match x with
              | [b; c; h; w] => Ok [b; c; slice_to_neg h p1; slice_to_neg w p0]
              | _ => Unmodelled
              end
            else Ok x) ;;
      let x := match x with [b; c; h; w] => [b; h; w; c] | _ => x end in
      x <- Linear_shape width 128 x ;;
      Linear_shape 128 (out_dim a) x
  | _ :: _ :: _ :: _ => Raises RuntimeError
  | _ => Raises IndexError
  end.

End LSM_2D.

(** ** The data loaders of [main]

    [torch.utils.data.DataLoader] groups the indices its sampler yields
    through a batch sampler: an index is appended to the current batch, a
    batch that reached [batch_size] is yielded, and what is left at the end
    is yielded unless [drop_last] is set. *)

Module DataLoader.

Record t : Type := mk {
  dataset_len : nat;
  batch_size : nat;
  shuffle : bool;
  drop_last : bool
}.

(** [DataLoader(dataset, batch_size=batch_size, shuffle=shuffle)]:
    [drop_last] keeps its default, [False]. *)
Definition init (dataset_len batch_size : nat) (shuffle : bool) : result t :=
  if batch_size =? 0 then Raises ValueError
  else Ok (mk dataset_len batch_size shuffle false).

Fixpoint batch_sampler (batch_size : nat) (drop_last : bool)
  (batch sampler : list nat) : list (list nat) :=
  match sampler with
  | [] => if (0 <? length batch) && negb drop_last then [batch] else []
  | idx :: sampler' =>
      let batch := batch ++ [idx] in
      if length batch =? batch_size
      then batch :: batch_sampler batch_size drop_last [] sampler'
      else batch_sampler batch_size drop_last batch sampler'
  end.

(** The batches of one pass over the data, for the order [sampler] in
    which the indices come ([range(n)], or a random permutation of it when
    [shuffle] is set). *)
Definition batches (self : t) (sampler : list nat) : list (list nat) :=
  batch_sampler (batch_size self) (drop_last self) [] sampler.

End DataLoader.

(** One pass of the training loop of [main] at the level of shapes: each
    mini-batch of fields of [s1] x [s2] points goes through
    [model(x).reshape(batch_size, s1, s2)]; the value is the number of
    calls of [optimizer.step()]. *)
Fixpoint train_epoch (a : LSM_2D.args) (batch_size s1 s2 : nat)
  (batches : list (list nat)) : result nat :=
  match batches with
  | [] => Ok 0
  | batch :: batches' =>
      out <- LSM_2D.forward_shape a [length batch; s1; s2; 1] ;;
      _ <- view_shape out [batch_size; s1; s2] ;;
      steps <- train_epoch a batch_size s1 s2 batches' ;;
      Ok (S steps)
  end.

(** ** The transition step of the Neural Spectral Block *)

(** [compl_mul2d]: [torch.einsum("bilm,im->bil", input, weights)] on
    operands whose [i] and [m] sizes agree. *)
Definition compl_mul2d (input weights : tensor) : result tensor :=
  match shape input, shape weights with
  | [B; C; L; M], [C'; M'] =>
      if (C =? C') && (M =? M') then
        Ok (tabulate [B; C; L]
              (fun idx =>
                 match idx with
                 | [b; i; l] =>
                     rsum (fun m => (get input [b; i; l; m] * get weights [i; m])%R) M
                 | _ => 0%R
                 end))
      else Unmodelled
  | _, _ => Raises RuntimeError
  end.

(** Step (2) of [NeuralSpectralBlock2d.forward]:
    [compl_mul2d(get_basis(latent_token), weights) + latent_token]. *)
Definition transition (self : NeuralSpectralBlock2d.t) (weights latent_token : tensor)
  : result tensor :=
  latent_token_modes <- NeuralSpectralBlock2d.get_basis self latent_token ;;
  t <- compl_mul2d latent_token_modes weights ;;
  bop Rplus t latent_token.

(** ** The coordinate grid of [LSM_2D] *)

(** [np.linspace(0, 1, num)] in exact arithmetic: [arange(num) * step + 0]
    with [step = 1 / (num - 1)]; a single point is 0. *)
Definition linspace01 (num : nat) : tensor :=
  tabulate [num]
    (fun idx =>
       match idx with
       | [i] => if num =? 1 then 0%R else (INR i * (1 / INR (num - 1)) + 0)%R
       | _ => 0%R
       end).

Fixpoint zip_with (f : nat -> nat -> nat) (l1 l2 : list nat) : list nat :=
  match l1, l2 with
  | a :: l1', b :: l2' => f a b :: zip_with f l1' l2'
  | _, _ => []
  end.

(** [t.repeat(reps)] with one repetition count per axis of [t]. *)
Definition tensor_repeat (reps : list nat) (t : tensor) : result tensor :=
  if length reps <? length (shape t) then Raises RuntimeError
  else if length reps =? length (shape t) then
    Ok (tabulate (zip_with Nat.mul (shape t) reps)
          (fun idx => get t (zip_with Nat.modulo idx (shape t))))
  else Unmodelled.

(** [LSM_2D.get_grid(shape, device)]. *)
Definition get_grid (shp : list nat) : result tensor :=
  match shp with
  | batchsize :: size_x :: size_y :: _ =>
      gx <- view (linspace01 size_x) [1; size_x; 1; 1] ;;
      gridx <- tensor_repeat [batchsize; 1; size_y; 1] gx ;;
      gy <- view (linspace01 size_y) [1; 1; size_y; 1] ;;
      gridy <- tensor_repeat [batchsize; size_x; 1; 1] gy ;;
      cat_last gridx gridy
  | _ => Raises IndexError
  end.

(** The first two lines of [LSM_2D.forward]:
    [torch.cat((x, self.get_grid(x.shape, x.device)), dim=-1)]. *)
Definition with_grid (x : tensor) : result tensor :=
  grid <- get_grid (shape x) ;;
  cat_last x grid.

(** ** Data preparation in [main] *)

(** [int(((h - 1) / r) + 1)] for non-negative integers, in exact
    arithmetic: the quotient [(h - 1 + r) / r] truncated towards zero. *)
Definition mesh_points (h r : nat) : result nat :=
  if r =? 0 then Raises ZeroDivisionError
  else Ok (Z.to_nat (Z.quot (Z.of_nat h - 1 + Z.of_nat r) (Z.of_nat r))).

(** [len(range(0, stop, step))], the extent of an axis after [::step]. *)
Definition range_len (stop step : nat) : nat :=
  if 0 <? stop then (stop - 1) / step + 1 else 0.




(** ** MatReader *)

From Stdlib Require String.

(** [x.astype(dtype)]: every entry rounded by [cast], the shape kept. *)
Definition astype (cast : R -> R) (x : tensor) : tensor :=
  mkTensor (shape x) (map cast (data x)).

(** [np.transpose(x, axes=range(len(x.shape) - 1, -1, -1))]. *)
Definition transpose_all (x : tensor) : tensor :=
  permute (rev (seq 0 (length (shape x)))) x.

Module MatReader.

Import String.

(** Outcome of a method of the reader: a value, the [KeyError] of a dict
    lookup, a [TypeError], an [AttributeError], or the exception
    [scipy.io.loadmat] raises on a path it cannot read. *)
Inductive outcome (A : Type) : Type :=
| Returns (a : A)
| KeyError
| TypeError
| AttributeError
| LoadError.

Arguments Returns {A} a.
Arguments KeyError {A}.
Arguments TypeError {A}.
Arguments AttributeError {A}.
Arguments LoadError {A}.

(** A value of the dict that [scipy.io.loadmat] returns: a numeric array
    for a variable of the file, or the object stored under ['__header__']
    (bytes), ['__version__'] (str) and ['__globals__'] (list), which is not
    an array.  The files covered are those whose variables are arrays of
    floating-point numbers, as the data files of the script are; char,
    cell and struct variables are left out. *)
Inductive entry : Type :=
| Array (x : tensor)
| NoArray (obj : string).

(** What [read_field] hands back: the value, whether it is a torch tensor
    and whether it was moved to the GPU. *)
Record value : Type := mk_value { payload : entry; is_torch : bool; on_cuda : bool }.

Record t : Type := mk {
  to_torch : bool;
  to_cuda : bool;
  to_float : bool;
  file_path : string;
  data : option (list (string * entry));
  old_mat : bool
}.

Fixpoint lookup (field : string) (d : list (string * entry)) : option entry :=
  match d with
  | [] => None
  | (k, x) :: d' => if String.eqb field k then Some x else lookup field d'
  end.

Section Reader.

(** [scipy.io.loadmat]: the variables stored at a path, [None] when the
    call raises. *)
Variable loadmat : string -> option (list (string * entry)).

(** Rounding of one entry by [astype(np.float32)]. *)
Variable float32 : R -> R.

(** A method that assigns to [self] returns the object as the call leaves
    it, also when it raises. *)
Definition _load_file (self : t) : t * outcome unit :=
  match loadmat (file_path self) with
  | Some d =>
      (mk (to_torch self) (to_cuda self) (to_float self) (file_path self)
          (Some d) (old_mat self), Returns tt)
  | None => (self, LoadError)
  end.

(** [__init__]: no object exists when [_load_file] raises. *)
Definition init (path : string) (to_torch to_cuda to_float : bool) : outcome t :=
  let self := mk to_torch to_cuda to_float path None true in
  let r := _load_file self in
  match snd r with
  | Returns _ => Returns (fst r)
  | KeyError => KeyError
  | TypeError => TypeError
  | AttributeError => AttributeError
  | LoadError => LoadError
  end.

Definition load_file (self : t) (path : string) : t * outcome unit :=
  _load_file (mk (to_torch self) (to_cuda self) (to_float self) path
                 (data self) (old_mat self)).

(** [x[()]] leaves an array as it is.  On an object that is not an array,
    [x[()]] and [torch.from_numpy(x)] raise [TypeError] and [x.astype]
    raises [AttributeError]. *)
Definition read_field (self : t) (field : string) : outcome value :=
  match data self with
  | None => TypeError
  | Some d =>
      match lookup field d with
      | None => KeyError
      | Some (Array x) =>
          let x := if negb (old_mat self) then transpose_all x else x in
          let x := if to_float self then astype float32 x else x in
          if to_torch self then Returns (mk_value (Array x) true (to_cuda self))
          else Returns (mk_value (Array x) false false)
      | Some (NoArray obj) =>
          if negb (old_mat self) then TypeError
          else if to_float self then AttributeError
          else if to_torch self then TypeError
          else Returns (mk_value (NoArray obj) false false)
      end
  end.

Definition set_cuda (self : t) (b : bool) : t :=
  mk (to_torch self) b (to_float self) (file_path self) (data self) (old_mat self).

Definition set_torch (self : t) (b : bool) : t :=
  mk b (to_cuda self) (to_float self) (file_path self) (data self) (old_mat self).

Definition set_float (self : t) (b : bool) : t :=
  mk (to_torch self) (to_cuda self) b (file_path self) (data self) (old_mat self).

(** The calls that change a reader, and the reader a call leaves behind
    (for [load_file] also when it raises). *)
Inductive call : Type :=
| Set_cuda (b : bool)
| Set_torch (b : bool)
| Set_float (b : bool)
| Load_file (path : string).

Definition after (self : t) (c : call) : t :=
  match c with
  | Set_cuda b => set_cuda self b
  | Set_torch b => set_torch self b
  | Set_float b => set_float self b
  | Load_file path => fst (load_file self path)
  end.

End Reader.

(** Two files as [main] reads them, with fields of 2 samples on a 1x2
    mesh, and a rounding that keeps these values. *)
Definition TRAIN_PATH : string := "source/piececonst_r421_N1024_smooth1.mat".
Definition TEST_PATH : string := "source/piececonst_r421_N1024_smooth2.mat".
Definition coeff : string := "coeff".
Definition sol : string := "sol".

Definition example_loadmat (path : string) : option (list (string * entry)) :=
  if String.eqb path TRAIN_PATH then
    Some [("__header__"%string, NoArray "MATLAB 5.0 MAT-file"%string);
          ("__version__"%string, NoArray "1.0"%string);
          ("__globals__"%string, NoArray "[]"%string);
          (coeff, Array (mkTensor [2; 1; 2] [3; 12; 12; 3]%R));
          (sol, Array (mkTensor [2; 1; 2] [0; 1; 1; 0]%R))]
  else if String.eqb path TEST_PATH then
    Some [("__header__"%string, NoArray "MATLAB 5.0 MAT-file"%string);
          ("__version__"%string, NoArray "1.0"%string);
          ("__globals__"%string, NoArray "[]"%string);
          (coeff, Array (mkTensor [2; 1; 2] [12; 12; 3; 3]%R));
          (sol, Array (mkTensor [2; 1; 2] [1; 0; 0; 1]%R))]
  else None.

(** A reader built on the training file, then pointed at the test file
    and told to keep the stored precision. *)
Definition example_reader : t :=
  fold_left (after example_loadmat)
    [Load_file TEST_PATH; Set_float false]
    (mk true false true TRAIN_PATH (example_loadmat TRAIN_PATH) true).

End MatReader.

(** ** Checkpoints in [main] *)

(** The epochs at whose end [main] saves the model: the test
    [ep % step_size == 0] at the end of each epoch of the list. *)
Fixpoint checkpoints (step_size : nat) (epochs : list nat) : result (list nat) :=
  match epochs with
  | [] => Ok []
  | ep :: epochs' =>
      if step_size =? 0 then Raises ZeroDivisionError
      else
        saved <- checkpoints step_size epochs' ;;
        Ok (if ep mod step_size =? 0 then ep :: saved else saved)
  end.

(** [for ep in range(epochs)]. *)
Definition main_checkpoints (epochs step_size : nat) : result (list nat) :=
  checkpoints step_size (seq 0 epochs).

(** * Properties *)

(** ** Indexing lemmas *)

Lemma ravel_lt s : forall idx, in_bounds s idx -> ravel s idx < numel s.
Proof.
  induction s as [|d s IH]; intros idx H; inversion H; subst; simpl.
  - lia.
  - specialize (IH _ H4). fold (numel s). nia.
Qed.

Lemma unravel_in_bounds s : forall k, k < numel s -> in_bounds s (unravel s k).
Proof.
  induction s as [|d s IH]; intros k Hk; simpl in *.
  - constructor.
  - fold (numel s) in *.
    assert (numel s <> 0) by (intros E; rewrite E in Hk; lia).
    constructor.
    + apply Nat.Div0.div_lt_upper_bound. lia.
    + apply IH. apply Nat.mod_upper_bound. assumption.
Qed.

Lemma ravel_unravel s : forall k, k < numel s -> ravel s (unravel s k) = k.
Proof.
  induction s as [|d s IH]; intros k Hk; simpl in *.
  - lia.
  - fold (numel s) in *.
    assert (numel s <> 0) by (intros E; rewrite E in Hk; lia).
    rewrite IH by (apply Nat.mod_upper_bound; assumption).
    rewrite (Nat.div_mod_eq k (numel s)) at 3. lia.
Qed.

Lemma unravel_ravel s :
  forall idx, in_bounds s idx -> unravel s (ravel s idx) = idx.
Proof.
  induction s as [|d s IH]; intros idx H; inversion H; subst; simpl.
  - reflexivity.
  - fold (numel s). pose proof (ravel_lt H4) as Hlt.
    f_equal.
    + rewrite Nat.div_add_l by lia. rewrite Nat.div_small by assumption. lia.
    + rewrite Nat.add_comm, Nat.Div0.mod_add.
      rewrite Nat.mod_small by assumption. apply IH; assumption.
Qed.

Lemma tabulate_wf s g : wf (tabulate s g).
Proof. unfold wf; simpl. rewrite length_map, length_seq. reflexivity. Qed.

Lemma shape_tabulate s g : shape (tabulate s g) = s.
Proof. reflexivity. Qed.

Lemma get_tabulate s g idx :
  in_bounds s idx -> get (tabulate s g) idx = g idx.
Proof.
  intros H. unfold get, tabulate; simpl.
  pose proof (ravel_lt H) as Hlt.
  rewrite (nth_indep _ 0%R (g (unravel s 0))) by (rewrite length_map, length_seq; assumption).
  rewrite (map_nth (fun k => g (unravel s k)) (seq 0 (numel s)) 0 (ravel s idx)).
  rewrite seq_nth by assumption. simpl. rewrite unravel_ravel; auto.
Qed.

(** Two well-formed tensors of one shape with equal entries are equal. *)
Lemma tensor_ext a b :
  wf a -> wf b -> shape a = shape b ->
  (forall idx, in_bounds (shape a) idx -> get a idx = get b idx) ->
  a = b.
Proof.
  destruct a as [sa da], b as [sb db]; unfold wf, get; simpl.
  intros Ha Hb Hs Hget. subst sb. f_equal.
  apply (nth_ext da db 0%R 0%R); [congruence|].
  intros k Hk. rewrite Ha in Hk.
  specialize (Hget (unravel sa k) (unravel_in_bounds sa Hk)).
  rewrite ravel_unravel in Hget; assumption.
Qed.

Lemma floordiv_ok a b : 0 < b -> floordiv a b = Ok (a / b).
Proof. intros Hb. unfold floordiv. destruct (Nat.eqb_spec b 0); [lia | reflexivity]. Qed.

Lemma view_ok t s : numel s = numel (shape t) -> view t s = Ok (mkTensor s (data t)).
Proof. intros E. unfold view. rewrite E, Nat.eqb_refl. reflexivity. Qed.

Lemma in_bounds6 d0 d1 d2 d3 d4 d5 idx :
  in_bounds [d0; d1; d2; d3; d4; d5] idx ->
  exists i0 i1 i2 i3 i4 i5,
    idx = [i0; i1; i2; i3; i4; i5] /\
    i0 < d0 /\ i1 < d1 /\ i2 < d2 /\ i3 < d3 /\ i4 < d4 /\ i5 < d5.
Proof.
  intros H.
  repeat match goal with
         | H : in_bounds (_ :: _) _ |- _ => inversion H; clear H; subst
         | H : Forall2 lt _ (_ :: _) |- _ => inversion H; clear H; subst
         | H : Forall2 lt _ [] |- _ => inversion H; clear H; subst
         end.
  do 6 eexists. split; [reflexivity|]. repeat split; assumption.
Qed.

Lemma in_bounds6_intro d0 d1 d2 d3 d4 d5 i0 i1 i2 i3 i4 i5 :
  i0 < d0 -> i1 < d1 -> i2 < d2 -> i3 < d3 -> i4 < d4 -> i5 < d5 ->
  in_bounds [d0; d1; d2; d3; d4; d5] [i0; i1; i2; i3; i4; i5].
Proof. intros; repeat constructor; assumption. Qed.

(** The two permutations of [forward] undo each other on a six-axis tensor. *)
Lemma permute_patch_roundtrip (t : tensor) B C hp p0 wp p1 :
  wf t -> shape t = [B; C; hp; p0; wp; p1] ->
  permute [0; 3; 1; 4; 2; 5]
    (mkTensor [B; hp; wp; C; p0; p1] (data (permute [0; 2; 4; 1; 3; 5] t))) = t.
Proof.
  destruct t as [s d]; cbn [shape]. intros Hwf ->.
  apply tensor_ext.
  - apply tabulate_wf.
  - assumption.
  - reflexivity.
  - intros idx Hidx. cbn [shape] in Hidx.
    destruct (in_bounds6 Hidx) as (b & c & a & u & e & v & -> & Hb & Hc & Ha & Hu & He & Hv).
    unfold permute at 1. rewrite get_tabulate by exact Hidx.
    cbn [unpermute length seq map index_of Nat.eqb nth].
    change (mkTensor [B; hp; wp; C; p0; p1]
              (data (permute [0; 2; 4; 1; 3; 5] (mkTensor [B; C; hp; p0; wp; p1] d))))
      with (tabulate [B; hp; wp; C; p0; p1]
              (fun j => get (mkTensor [B; C; hp; p0; wp; p1] d)
                          (unpermute [0; 2; 4; 1; 3; 5] j))).
    rewrite get_tabulate by (apply in_bounds6_intro; assumption).
    reflexivity.
Qed.

(** C1. On a feature map of shape (B, C, H, W) whose height and width are
    multiples of the patch size, the patchify reshape of
    [NeuralSpectralBlock2d.forward] succeeds, and the de-patchify reshape
    applied to its result returns the feature map itself: same shape, same
    storage, element for element.  So [forward] with nothing between the
    two reshapes is the identity. *)
Theorem patchify_depatchify_identity :
  forall (self : NeuralSpectralBlock2d.t) (x : tensor) (B C H W : nat),
    let p0 := fst (NeuralSpectralBlock2d.patch_size self) in
    let p1 := snd (NeuralSpectralBlock2d.patch_size self) in
    wf x -> shape x = [B; C; H; W] ->
    0 < p0 -> 0 < p1 ->
    H mod p0 = 0 -> W mod p1 = 0 ->
    (exists t,
       NeuralSpectralBlock2d.patchify self x = Ok t /\
       shape t = [B * (H / p0) * (W / p1); C; p0; p1] /\
       NeuralSpectralBlock2d.depatchify self B C H W t = Ok x) /\
    NeuralSpectralBlock2d.forward (fun t => Ok t) self x = Ok x.
Proof.
  intros self [s d] B C H W p0 p1 Hwf Hs Hp0 Hp1 HH HW.
  cbn [shape] in *. subst s.
  assert (EH : p0 * (H / p0) = H) by (symmetry; apply Nat.Div0.div_exact; assumption).
  assert (EW : p1 * (W / p1) = W) by (symmetry; apply Nat.Div0.div_exact; assumption).
  set (hp := H / p0) in *. set (wp := W / p1) in *.
  assert (N1 : numel [B; C; hp; p0; wp; p1] = numel [B; C; H; W])
    by (cbn [numel fold_right]; rewrite <- EH, <- EW; ring).
  assert (N2 : numel [B * hp * wp; C; p0; p1] = numel [B; hp; wp; C; p0; p1])
    by (cbn [numel fold_right]; ring).
  assert (Hpatch : NeuralSpectralBlock2d.patchify self (mkTensor [B; C; H; W] d)
                   = Ok (mkTensor [B * hp * wp; C; p0; p1]
                           (data (permute [0; 2; 4; 1; 3; 5]
                                    (mkTensor [B; C; hp; p0; wp; p1] d))))).
  { unfold NeuralSpectralBlock2d.patchify. cbn [shape]. fold p0 p1.
    rewrite !floordiv_ok by assumption. fold hp wp. cbn [bind].
    rewrite (view_ok (mkTensor [B; C; H; W] d)) by exact N1. cbn [bind data].
    rewrite view_ok by exact N2. reflexivity. }
  assert (Hback : NeuralSpectralBlock2d.depatchify self B C H W
                    (mkTensor [B * hp * wp; C; p0; p1]
                       (data (permute [0; 2; 4; 1; 3; 5]
                                (mkTensor [B; C; hp; p0; wp; p1] d))))
                  = Ok (mkTensor [B; C; H; W] d)).
  { unfold NeuralSpectralBlock2d.depatchify. fold p0 p1.
    rewrite !floordiv_ok by assumption. fold hp wp. cbn [bind].
    rewrite view_ok by (symmetry; exact N2). cbn [bind data].
    rewrite (@permute_patch_roundtrip (mkTensor [B; C; hp; p0; wp; p1] d) B C hp p0 wp p1);
      [ | unfold wf in *; cbn [shape data] in *; rewrite N1; exact Hwf | reflexivity ].
    rewrite view_ok by (symmetry; exact N1). reflexivity. }
  split.
  - eexists. split; [exact Hpatch|]. split; [reflexivity | exact Hback].
  - unfold NeuralSpectralBlock2d.forward. cbn [shape].
    rewrite Hpatch. cbn [bind]. exact Hback.
Qed.

Lemma patchify_depatchify_identity_witness :
  (exists t,
     NeuralSpectralBlock2d.patchify example_block
       (mkTensor [1; 1; 4; 4]
          [1; 2; 3; 4; 5; 6; 7; 8; 9; 10; 11; 12; 13; 14; 15; 16]%R) = Ok t /\
     shape t = [1 * (4 / 2) * (4 / 2); 1; 2; 2] /\
     NeuralSpectralBlock2d.depatchify example_block 1 1 4 4 t
     = Ok (mkTensor [1; 1; 4; 4]
             [1; 2; 3; 4; 5; 6; 7; 8; 9; 10; 11; 12; 13; 14; 15; 16]%R)) /\
  NeuralSpectralBlock2d.forward (fun t => Ok t) example_block
    (mkTensor [1; 1; 4; 4]
       [1; 2; 3; 4; 5; 6; 7; 8; 9; 10; 11; 12; 13; 14; 15; 16]%R)
  = Ok (mkTensor [1; 1; 4; 4]
          [1; 2; 3; 4; 5; 6; 7; 8; 9; 10; 11; 12; 13; 14; 15; 16]%R).
Proof.
  apply (@patchify_depatchify_identity example_block
           (mkTensor [1; 1; 4; 4]
              [1; 2; 3; 4; 5; 6; 7; 8; 9; 10; 11; 12; 13; 14; 15; 16]%R) 1 1 4 4);
    try reflexivity; simpl; lia.
Defined.

(** A 4x4 map cut into 2x2 patches: the four patches become the batch. *)
Example patchify_4x4 :
  NeuralSpectralBlock2d.patchify example_block
    (mkTensor [1; 1; 4; 4]
       [1; 2; 3; 4; 5; 6; 7; 8; 9; 10; 11; 12; 13; 14; 15; 16]%R)
  = Ok (mkTensor [4; 1; 2; 2]
          [1; 2; 5; 6; 3; 4; 7; 8; 9; 10; 13; 14; 11; 12; 15; 16]%R).
Proof. reflexivity. Qed.

(** ** Basis expansion *)

Lemma in_bounds4_intro d0 d1 d2 d3 i0 i1 i2 i3 :
  i0 < d0 -> i1 < d1 -> i2 < d2 -> i3 < d3 ->
  in_bounds [d0; d1; d2; d3] [i0; i1; i2; i3].
Proof. intros; repeat constructor; assumption. Qed.

Lemma get_modes num_basis m :
  m < num_basis ->
  get (mkTensor [num_basis]
         (map (fun i => (1 / INR num_basis * INR i)%R) (seq 0 num_basis))) [m]
  = (1 / INR num_basis * INR m)%R.
Proof.
  intros Hm. unfold get. cbn [shape data ravel numel fold_right].
  replace (m * 1 + 0) with m by lia.
  rewrite (nth_indep _ 0%R (1 / INR num_basis * INR 0)%R)
    by (rewrite length_map, length_seq; assumption).
  rewrite (map_nth (fun i => (1 / INR num_basis * INR i)%R)).
  rewrite seq_nth by assumption. reflexivity.
Qed.

Lemma block_init_inv width num_basis patch_size num_token self :
  NeuralSpectralBlock2d.init width num_basis patch_size num_token = Ok self ->
  0 < num_basis /\ 0 < width /\
  NeuralSpectralBlock2d.num_basis self = num_basis /\
  NeuralSpectralBlock2d.modes_list self
  = mkTensor [num_basis]
      (map (fun i => (1 / INR num_basis * INR i)%R) (seq 0 num_basis)).
Proof.
  unfold NeuralSpectralBlock2d.init.
  destruct (Nat.eqb_spec num_basis 0); [discriminate|].
  destruct (Nat.eqb_spec width 0); [discriminate|].
  intros [= <-]. cbn. repeat split; lia.
Qed.

(** Entry-wise description of [get_basis]: the first [num_basis] features of
    a token are sines, the next [num_basis] are cosines, at the frequencies
    [m / num_basis]. *)
Lemma get_basis_entries width num_basis patch_size num_token self x B C N :
  NeuralSpectralBlock2d.init width num_basis patch_size num_token = Ok self ->
  shape x = [B; C; N] ->
  exists y,
    NeuralSpectralBlock2d.get_basis self x = Ok y /\
    shape y = [B; C; N; num_basis + num_basis] /\
    forall b c n m, b < B -> c < C -> n < N -> m < num_basis ->
      get y [b; c; n; m]
      = sin (1 / INR num_basis * INR m * get x [b; c; n] * PI) /\
      get y [b; c; n; num_basis + m]
      = cos (1 / INR num_basis * INR m * get x [b; c; n] * PI).
Proof.
  intros Hinit Hs. destruct (@block_init_inv _ _ _ _ _ Hinit) as (Hnb & _ & _ & Em).
  unfold NeuralSpectralBlock2d.get_basis. rewrite Em.
  unfold basis_apply. cbn [shape]. rewrite Hs. cbn [bind].
  unfold cat_last. cbn [shape tabulate]. rewrite !Nat.eqb_refl. cbn [andb].
  eexists. split; [reflexivity|]. split; [reflexivity|].
  intros b c n m Hb Hc Hn Hm.
  split.
  - rewrite get_tabulate by (apply in_bounds4_intro; lia).
    destruct (Nat.ltb_spec m num_basis) as [_|F]; [|lia].
    match goal with |- get ?t _ = _ =>
      change t with (tabulate [B; C; N; num_basis]
        (fun idx => match idx with
                    | [b; c; n; m] =>
                        sin (get (mkTensor [num_basis]
                               (map (fun i => (1 / INR num_basis * INR i)%R)
                                  (seq 0 num_basis))) [m] * get x [b; c; n] * PI)
                    | _ => 0%R
                    end))
    end.
    rewrite get_tabulate by (apply in_bounds4_intro; lia).
    rewrite get_modes by assumption. reflexivity.
  - rewrite get_tabulate by (apply in_bounds4_intro; lia).
    destruct (Nat.ltb_spec (num_basis + m) num_basis) as [F|_]; [lia|].
    replace (num_basis + m - num_basis) with m by lia.
    match goal with |- get ?t _ = _ =>
      change t with (tabulate [B; C; N; num_basis]
        (fun idx => match idx with
                    | [b; c; n; m] =>
                        cos (get (mkTensor [num_basis]
                               (map (fun i => (1 / INR num_basis * INR i)%R)
                                  (seq 0 num_basis))) [m] * get x [b; c; n] * PI)
                    | _ => 0%R
                    end))
    end.
    rewrite get_tabulate by (apply in_bounds4_intro; lia).
    rewrite get_modes by assumption. reflexivity.
Qed.

Lemma sin_zero_frequency num_basis v : sin (1 / INR num_basis * INR 0 * v * PI) = 0%R.
Proof.
  replace (1 / INR num_basis * INR 0 * v * PI)%R with 0%R by (simpl; ring).
  apply sin_0.
Qed.

Lemma cos_zero_frequency num_basis v : cos (1 / INR num_basis * INR 0 * v * PI) = 1%R.
Proof.
  replace (1 / INR num_basis * INR 0 * v * PI)%R with 0%R by (simpl; ring).
  apply cos_0.
Qed.

(** C2, as stated, fails: with one basis function the only frequency is 0,
    so the token value 1/2 is expanded to [0; 1], not to
    [sin(pi/2); cos(pi/2)] = [1; 0]. *)
Lemma get_basis_single_basis_is_not_sin_cos :
  exists self,
    NeuralSpectralBlock2d.init 8 1 (1, 1) 4 = Ok self /\
    NeuralSpectralBlock2d.get_basis self (mkTensor [1; 1; 1] [/ 2]%R)
    <> Ok (mkTensor [1; 1; 1; 2] [sin (PI * / 2); cos (PI * / 2)]%R).
Proof.
  eexists. split; [reflexivity|]. intros E.
  destruct (@get_basis_entries 8 1 (1, 1) 4 _ (mkTensor [1; 1; 1] [/ 2]%R) 1 1 1
              eq_refl eq_refl) as (y & Hy & _ & Hent).
  rewrite Hy in E. injection E as ->.
  destruct (Hent 0 0 0 0) as [Hs _]; try lia.
  rewrite sin_zero_frequency in Hs.
  unfold get in Hs. cbn in Hs.
  change (PI * / 2)%R with (PI / 2)%R in Hs. rewrite sin_PI2 in Hs. lra.
Qed.

(** C2 (amended). [get_basis] is a function of the token value and the basis
    count alone: feature [m] of a token is the sine, and feature
    [num_basis + m] the cosine, of [m / num_basis] times the token value
    times pi.  For [num_basis = 1] the single frequency is 0 and every token
    is expanded to the pair [sin 0; cos 0] = [0; 1]. *)
Theorem get_basis_formula_and_single_basis :
  forall (width num_basis : nat) (patch_size : nat * nat) (num_token : nat)
         (self : NeuralSpectralBlock2d.t) (x : tensor) (B C N : nat),
    NeuralSpectralBlock2d.init width num_basis patch_size num_token = Ok self ->
    shape x = [B; C; N] ->
    exists y,
      NeuralSpectralBlock2d.get_basis self x = Ok y /\
      shape y = [B; C; N; num_basis + num_basis] /\
      (forall b c n m, b < B -> c < C -> n < N -> m < num_basis ->
         get y [b; c; n; m]
         = sin (1 / INR num_basis * INR m * get x [b; c; n] * PI) /\
         get y [b; c; n; num_basis + m]
         = cos (1 / INR num_basis * INR m * get x [b; c; n] * PI)) /\
      (num_basis = 1 ->
       forall b c n, b < B -> c < C -> n < N ->
         get y [b; c; n; 0] = 0%R /\ get y [b; c; n; 1] = 1%R).
Proof.
  intros width num_basis patch_size num_token self x B C N Hinit Hs.
  destruct (@get_basis_entries _ _ _ _ _ _ _ _ _ Hinit Hs) as (y & Hy & Hsh & Hent).
  exists y. repeat split; try assumption; try (apply Hent; assumption).
  - subst num_basis. destruct (Hent b c n 0) as [E _]; try lia.
    rewrite E. apply sin_zero_frequency.
  - subst num_basis. destruct (Hent b c n 0) as [_ E]; try lia.
    cbn [Nat.add] in E. rewrite E. apply cos_zero_frequency.
Qed.

Lemma get_basis_formula_and_single_basis_witness :
  exists self,
    NeuralSpectralBlock2d.init 8 1 (1, 1) 4 = Ok self /\
    exists y,
      NeuralSpectralBlock2d.get_basis self (mkTensor [1; 1; 1] [/ 2]%R) = Ok y /\
      shape y = [1; 1; 1; 1 + 1] /\
      (forall b c n m, b < 1 -> c < 1 -> n < 1 -> m < 1 ->
         get y [b; c; n; m]
         = sin (1 / INR 1 * INR m * get (mkTensor [1; 1; 1] [/ 2]%R) [b; c; n] * PI) /\
         get y [b; c; n; 1 + m]
         = cos (1 / INR 1 * INR m * get (mkTensor [1; 1; 1] [/ 2]%R) [b; c; n] * PI)) /\
      (1 = 1 ->
       forall b c n, b < 1 -> c < 1 -> n < 1 ->
         get y [b; c; n; 0] = 0%R /\ get y [b; c; n; 1] = 1%R).
Proof.
  eexists. split; [reflexivity|].
  apply (@get_basis_formula_and_single_basis 8 1 (1, 1) 4 _
           (mkTensor [1; 1; 1] [/ 2]%R) 1 1 1); reflexivity.
Defined.

(** C10. For a block configured with any basis count of at least 1, and
    whatever the token values, the lowest frequency of [modes_list] is 0, so
    the first sine feature of every token is 0 and its first cosine feature,
    at position [num_basis], is 1. *)
Theorem get_basis_zero_frequency_constant :
  forall (width num_basis : nat) (patch_size : nat * nat) (num_token : nat)
         (self : NeuralSpectralBlock2d.t) (x : tensor) (B C N : nat),
    1 <= num_basis ->
    NeuralSpectralBlock2d.init width num_basis patch_size num_token = Ok self ->
    shape x = [B; C; N] ->
    get (NeuralSpectralBlock2d.modes_list self) [0] = 0%R /\
    exists y,
      NeuralSpectralBlock2d.get_basis self x = Ok y /\
      forall b c n, b < B -> c < C -> n < N ->
        get y [b; c; n; 0] = 0%R /\ get y [b; c; n; num_basis] = 1%R.
Proof.
  intros width num_basis patch_size num_token self x B C N Hnb Hinit Hs.
  destruct (@get_basis_entries _ _ _ _ _ _ _ _ _ Hinit Hs) as (y & Hy & _ & Hent).
  destruct (@block_init_inv _ _ _ _ _ Hinit) as (_ & _ & _ & Em).
  split; [rewrite Em, get_modes by lia; simpl; ring|].
  exists y. split; [assumption|].
  intros b c n Hb Hc Hn. destruct (Hent b c n 0) as [E1 E2]; try lia.
  rewrite Nat.add_0_r in E2. rewrite E1, E2.
  split; [apply sin_zero_frequency | apply cos_zero_frequency].
Qed.

Lemma get_basis_zero_frequency_constant_witness :
  exists self,
    NeuralSpectralBlock2d.init 8 3 (1, 1) 4 = Ok self /\
    get (NeuralSpectralBlock2d.modes_list self) [0] = 0%R /\
    exists y,
      NeuralSpectralBlock2d.get_basis self (mkTensor [1; 1; 2] [5; 7]%R) = Ok y /\
      forall b c n, b < 1 -> c < 1 -> n < 2 ->
        get y [b; c; n; 0] = 0%R /\ get y [b; c; n; 3] = 1%R.
Proof.
  eexists. split; [reflexivity|].
  apply (@get_basis_zero_frequency_constant 8 3 (1, 1) 4 _
           (mkTensor [1; 1; 2] [5; 7]%R) 1 1 2); [lia | reflexivity | reflexivity].
Defined.

(** ** Attention weights *)

Lemma rsum_ext f g n : (forall i, i < n -> f i = g i) -> rsum f n = rsum g n.
Proof.
  intros H. unfold rsum. f_equal. apply map_ext_in.
  intros i Hi. apply in_seq in Hi. apply H. lia.
Qed.

Lemma rsum_S f n : rsum f (S n) = (rsum f n + f n)%R.
Proof.
  unfold rsum. rewrite seq_S, map_app. cbn [map Nat.add].
  generalize (map f (seq 0 n)) as l.
  induction l as [|a l IH]; cbn [fold_right app]; [ring | rewrite IH; ring].
Qed.

Lemma rsum_div f T n : rsum (fun i => (f i / T)%R) n = (rsum f n / T)%R.
Proof.
  induction n as [|n IH]; [unfold rsum; simpl; unfold Rdiv; ring|].
  rewrite !rsum_S, IH. unfold Rdiv. ring.
Qed.

Lemma rsum_exp_pos f n : 0 < n -> (0 < rsum (fun i => exp (f i)) n)%R.
Proof.
  induction n as [|n IH]; [lia|]. intros _. rewrite rsum_S.
  pose proof (exp_pos (f n)).
  destruct n as [|n]; [unfold rsum; simpl; lra|].
  assert (0 < rsum (fun i => exp (f i)) (S n))%R by (apply IH; lia). lra.
Qed.

Lemma einsum_scores_entries q k B H L K C :
  shape q = [B; H; L; C] -> shape k = [B; H; K; C] ->
  exists sc,
    einsum_bhlc_bhsc q k = Ok sc /\ shape sc = [B; H; L; K] /\
    forall b h l s, b < B -> h < H -> l < L -> s < K ->
      get sc [b; h; l; s] = qk_dot q k C b h l s.
Proof.
  intros Hq Hk. unfold einsum_bhlc_bhsc. rewrite Hq, Hk, !Nat.eqb_refl. cbn [andb].
  eexists. split; [reflexivity|]. split; [reflexivity|].
  intros b h l s Hb Hh Hl Hs.
  rewrite get_tabulate by (apply in_bounds4_intro; assumption). reflexivity.
Qed.

Lemma softmax_entries t B H L K :
  shape t = [B; H; L; K] ->
  forall b h l s, b < B -> h < H -> l < L -> s < K ->
    get (softmax t) [b; h; l; s]
    = (exp (get t [b; h; l; s]) / rsum (fun j => exp (get t [b; h; l; j])) K)%R.
Proof.
  intros Ht b h l s Hb Hh Hl Hs. unfold softmax. rewrite Ht.
  rewrite get_tabulate by (apply in_bounds4_intro; assumption).
  reflexivity.
Qed.

Lemma attn_weights_entries self q k B H L K C :
  shape q = [B; H; L; C] -> shape k = [B; H; K; C] ->
  exists a,
    NeuralSpectralBlock2d.attn_weights self q k = Ok a /\ shape a = [B; H; L; K] /\
    forall b h l s, b < B -> h < H -> l < L -> s < K ->
      get a [b; h; l; s]
      = (exp (qk_dot q k C b h l s)
         / rsum (fun j => exp (qk_dot q k C b h l j)) K)%R.
Proof.
  intros Hq Hk.
  destruct (einsum_scores_entries q k Hq Hk) as (sc & Hsc & Hsh & Hent).
  unfold NeuralSpectralBlock2d.attn_weights. rewrite Hsc. cbn [bind].
  eexists. split; [reflexivity|].
  split; [unfold softmax; cbn [shape tabulate]; assumption|].
  intros b h l s Hb Hh Hl Hs.
  rewrite (softmax_entries sc Hsh) by assumption.
  rewrite Hent by assumption. f_equal.
  apply rsum_ext. intros j Hj. rewrite Hent by assumption. reflexivity.
Qed.

Lemma spec_scaled_attn_weights_entries q k B H L K C :
  shape q = [B; H; L; C] -> shape k = [B; H; K; C] ->
  exists a,
    spec_scaled_attn_weights q k = Ok a /\
    forall b h l s, b < B -> h < H -> l < L -> s < K ->
      get a [b; h; l; s]
      = (exp (qk_dot q k C b h l s / sqrt (INR C))
         / rsum (fun j => exp (qk_dot q k C b h l j / sqrt (INR C))) K)%R.
Proof.
  intros Hq Hk.
  destruct (einsum_scores_entries q k Hq Hk) as (sc & Hsc & Hsh & Hent).
  unfold spec_scaled_attn_weights. rewrite Hsc. cbn [bind].
  eexists. split; [reflexivity|].
  intros b h l s Hb Hh Hl Hs.
  rewrite (@softmax_entries _ B H L K) by (try assumption; rewrite Hsh; reflexivity).
  rewrite Hsh, Hq. cbn [last].
  assert (G : forall j, j < K ->
            get (tabulate [B; H; L; K] (fun idx => (get sc idx / sqrt (INR C))%R)) [b; h; l; j]
            = (qk_dot q k C b h l j / sqrt (INR C))%R).
  { intros j Hj. rewrite get_tabulate by (apply in_bounds4_intro; assumption).
    rewrite Hent by assumption. reflexivity. }
  rewrite G by assumption. f_equal.
  apply rsum_ext. intros j Hj. rewrite G by assumption. reflexivity.
Qed.

(** C3, as stated, fails: [self_attn] feeds the raw dot products to the
    softmax.  With one query [1;0;0;0] and the keys [2;0;0;0] and [0;0;0;0]
    (per-head channel dimension 4) the code's weights are not those of the
    dot products divided by [sqrt 4]. *)
Lemma attn_weights_are_not_scaled :
  NeuralSpectralBlock2d.attn_weights example_block example_q example_k
  <> spec_scaled_attn_weights example_q example_k.
Proof.
  set (q := example_q). set (k := example_k).
  destruct (@attn_weights_entries example_block q k 1 1 1 2 4 eq_refl eq_refl) as (a & Ha & _ & Ea).
  destruct (@spec_scaled_attn_weights_entries q k 1 1 1 2 4 eq_refl eq_refl) as (a' & Ha' & Ea').
  rewrite Ha, Ha'. intros E. injection E as <-.
  specialize (Ea 0 0 0 1). specialize (Ea' 0 0 0 1).
  rewrite Ea in Ea' by lia. specialize (Ea' ltac:(lia) ltac:(lia) ltac:(lia) ltac:(lia)).
  assert (D0 : qk_dot q k 4 0 0 0 0 = 2%R) by (unfold qk_dot, rsum, get, q, k, example_q, example_k; simpl; ring).
  assert (D1 : qk_dot q k 4 0 0 0 1 = 0%R) by (unfold qk_dot, rsum, get, q, k, example_q, example_k; simpl; ring).
  assert (S4 : sqrt (INR 4) = 2%R).
  { replace (INR 4) with (2 * 2)%R by (simpl; ring). apply sqrt_square. lra. }
  unfold rsum in Ea'. cbn [seq map fold_right] in Ea'.
  rewrite D0, D1, S4 in Ea'.
  replace (2 / 2)%R with 1%R in Ea' by lra.
  replace (0 / 2)%R with 0%R in Ea' by lra.
  rewrite exp_0 in Ea'.
  assert (E21 : (exp 1 < exp 2)%R) by (apply exp_increasing; lra).
  pose proof (exp_pos 1) as P1. pose proof (exp_pos 2) as P2.
  assert (X : (1 * (exp 1 + (1 + 0)) = 1 * (exp 2 + (1 + 0)))%R).
  { apply (f_equal (fun r => (r * (exp 2 + (1 + 0)) * (exp 1 + (1 + 0)))%R)) in Ea'.
    field_simplify in Ea'; lra. }
  lra.
Qed.

(** C3 (amended). In [self_attn] the weight of key [s] for query [l] of
    head [h] is the softmax over the key axis of the raw query-key dot
    products: no division by the square root of the channel dimension takes
    place.  The weights of each query sum to 1, and the output is their
    contraction with the values. *)
Theorem self_attn_weights_unscaled_softmax :
  forall (self : NeuralSpectralBlock2d.t) (q k : tensor) (B H L K C : nat),
    shape q = [B; H; L; C] -> shape k = [B; H; K; C] ->
    exists a,
      NeuralSpectralBlock2d.attn_weights self q k = Ok a /\
      shape a = [B; H; L; K] /\
      (forall v, NeuralSpectralBlock2d.self_attn self q k v = einsum_bhls_bhsc a v) /\
      (forall b h l s, b < B -> h < H -> l < L -> s < K ->
         get a [b; h; l; s]
         = (exp (qk_dot q k C b h l s)
            / rsum (fun j => exp (qk_dot q k C b h l j)) K)%R) /\
      (forall b h l, b < B -> h < H -> l < L -> 0 < K ->
         rsum (fun s => get a [b; h; l; s]) K = 1%R).
Proof.
  intros self q k B H L K C Hq Hk.
  destruct (attn_weights_entries self q k Hq Hk) as (a & Ha & Hsh & Hent).
  exists a. split; [assumption|]. split; [assumption|].
  split; [intros v; unfold NeuralSpectralBlock2d.self_attn; rewrite Ha; reflexivity|].
  split; [assumption|].
  intros b h l Hb Hh Hl HK.
  rewrite (rsum_ext _ (fun s => (exp (qk_dot q k C b h l s)
                                 / rsum (fun j => exp (qk_dot q k C b h l j)) K)%R))
    by (intros s Hs; apply Hent; assumption).
  rewrite rsum_div.
  pose proof (rsum_exp_pos (fun j => qk_dot q k C b h l j) HK).
  field. lra.
Qed.

Lemma self_attn_weights_unscaled_softmax_witness :
  exists a,
    NeuralSpectralBlock2d.attn_weights example_block example_q example_k = Ok a /\
    shape a = [1; 1; 1; 2] /\
    (forall v, NeuralSpectralBlock2d.self_attn example_block example_q example_k v
               = einsum_bhls_bhsc a v) /\
    (forall b h l s, b < 1 -> h < 1 -> l < 1 -> s < 2 ->
       get a [b; h; l; s]
       = (exp (qk_dot example_q example_k 4 b h l s)
          / rsum (fun j => exp (qk_dot example_q example_k 4 b h l j)) 2)%R) /\
    (forall b h l, b < 1 -> h < 1 -> l < 1 -> 0 < 2 ->
       rsum (fun s => get a [b; h; l; s]) 2 = 1%R).
Proof.
  apply (@self_attn_weights_unscaled_softmax example_block example_q example_k 1 1 1 2 4);
    reflexivity.
Defined.

(** ** Broadcasting *)

Lemma Forall2_rev_lt (l1 l2 : list nat) :
  Forall2 lt l1 l2 -> Forall2 lt (rev l1) (rev l2).
Proof.
  induction 1; simpl; [constructor|].
  apply Forall2_app; [assumption | repeat constructor; assumption].
Qed.

Lemma in_bounds_rev s idx : Forall2 lt (rev idx) (rev s) -> in_bounds s idx.
Proof.
  intros H. apply Forall2_rev_lt in H. rewrite !rev_involutive in H. exact H.
Qed.

Lemma bdim_refl a : bdim a a = Some a.
Proof. unfold bdim. rewrite Nat.eqb_refl. reflexivity. Qed.


Lemma broadcast_rev_refl r : broadcast_rev r r = Some r.
Proof.
  induction r as [|a r IH]; simpl; [reflexivity|].
  rewrite bdim_refl, IH. reflexivity.
Qed.


Lemma bclip_rev_self r : forall ridx, Forall2 lt ridx r -> bclip_rev r ridx = ridx.
Proof.
  induction r as [|d r IH]; intros ridx H; inversion H; subst; simpl.
  - reflexivity.
  - rewrite IH by assumption.
    destruct (Nat.eqb_spec d 1); [f_equal; lia | reflexivity].
Qed.


Lemma bclip_rev_bounds_l r1 :
  forall r2 r ridx,
    broadcast_rev r1 r2 = Some r -> Forall2 lt ridx r ->
    Forall2 lt (bclip_rev r1 ridx) r1.
Proof.
  induction r1 as [|a r1 IH]; intros r2 r ridx; simpl.
  - intros _ _. constructor.
  - destruct r2 as [|b r2].
    + intros [= <-] H. inversion H; subst. simpl. constructor.
      * destruct (Nat.eqb_spec a 1); lia.
      * rewrite bclip_rev_self; assumption.
    + destruct (bdim a b) as [d|] eqn:Ed; [|discriminate].
      destruct (broadcast_rev r1 r2) as [r'|] eqn:Er; [|discriminate].
      intros [= <-] H. inversion H; subst. simpl. constructor.
      * unfold bdim in Ed.
        destruct (Nat.eqb_spec a 1); [lia|].
        destruct (Nat.eqb_spec a b); [injection Ed as <-; lia|].
        destruct (Nat.eqb_spec b 1); [injection Ed as <-; lia | discriminate].
      * eapply IH; eassumption.
Qed.

Lemma broadcast_shapes_rev s1 s2 s :
  broadcast_shapes s1 s2 = Some s -> broadcast_rev (rev s1) (rev s2) = Some (rev s).
Proof.
  unfold broadcast_shapes.
  destruct (broadcast_rev (rev s1) (rev s2)) as [r|]; [|discriminate].
  intros [= <-]. rewrite rev_involutive. reflexivity.
Qed.


Lemma broadcast_shapes_refl s : broadcast_shapes s s = Some s.
Proof.
  unfold broadcast_shapes. rewrite broadcast_rev_refl. simpl.
  rewrite rev_involutive. reflexivity.
Qed.

Lemma bindex_self s idx : in_bounds s idx -> bindex s idx = idx.
Proof.
  intros H. unfold bindex.
  rewrite bclip_rev_self by (apply Forall2_rev_lt; exact H).
  apply rev_involutive.
Qed.


Lemma bindex_bounds_l s1 s2 s idx :
  broadcast_shapes s1 s2 = Some s -> in_bounds s idx -> in_bounds s1 (bindex s1 idx).
Proof.
  intros Hb H. apply in_bounds_rev. unfold bindex. rewrite rev_involutive.
  eapply bclip_rev_bounds_l; [apply broadcast_shapes_rev; eassumption|].
  apply Forall2_rev_lt. exact H.
Qed.



(** ** Normalizer *)









(** ** Vector norms *)

Lemma rpow_nonneg b e : (0 <= rpow b e)%R.
Proof.
  unfold rpow. destruct (Rlt_dec 0 b); [|lra].
  unfold Rpower. left. apply exp_pos.
Qed.

Lemma rpow_pos b e : (0 < b)%R -> (0 < rpow b e)%R.
Proof.
  intros Hb. unfold rpow. destruct (Rlt_dec 0 b); [|contradiction].
  unfold Rpower. apply exp_pos.
Qed.

Lemma rpow_zero_iff b e : (0 <= b)%R -> rpow b e = 0%R <-> b = 0%R.
Proof.
  intros Hb. split.
  - intros E. destruct (Rle_lt_or_eq_dec 0 b Hb) as [Hlt|<-]; [|reflexivity].
    pose proof (rpow_pos e Hlt). lra.
  - intros ->. unfold rpow. destruct (Rlt_dec 0 0); [lra | reflexivity].
Qed.


Lemma rsum_list_nonneg l :
  Forall (fun v => (0 <= v)%R) l -> (0 <= rsum_list l)%R.
Proof. induction 1; simpl; lra. Qed.

Lemma rsum_list_zero_iff l :
  Forall (fun v => (0 <= v)%R) l ->
  rsum_list l = 0%R <-> Forall (fun v => v = 0%R) l.
Proof.
  induction 1 as [|a l Ha Hl IH]; simpl.
  - split; [constructor | reflexivity].
  - pose proof (rsum_list_nonneg Hl) as Hs. unfold rsum_list in *. split.
    + intros E. constructor; [lra | apply IH; lra].
    + intros F. inversion F; subst. apply IH in H2. lra.
Qed.


Lemma abs_powers_nonneg p v :
  Forall (fun r => (0 <= r)%R) (map (fun a => rpow (Rabs a) p) v).
Proof.
  apply Forall_forall. intros r Hr. apply in_map_iff in Hr.
  destruct Hr as (a & <- & _). apply rpow_nonneg.
Qed.


Lemma vnorm_zero_iff p v : vnorm p v = 0%R <-> Forall (fun a => a = 0%R) v.
Proof.
  unfold vnorm.
  rewrite rpow_zero_iff by (apply rsum_list_nonneg, abs_powers_nonneg).
  rewrite rsum_list_zero_iff by apply abs_powers_nonneg.
  rewrite Forall_map. split; intros H; eapply Forall_impl; try exact H;
    cbv beta; intros a Ha.
  - apply rpow_zero_iff in Ha; [|apply Rabs_pos].
    destruct (Req_dec_T a 0) as [|N]; [assumption|].
    apply Rabs_no_R0 in N. contradiction.
  - subst a. rewrite Rabs_R0. apply rpow_zero_iff; lra.
Qed.


(** ** Scaling a field *)




Lemma tabulate_ext s g1 g2 :
  (forall idx, in_bounds s idx -> g1 idx = g2 idx) -> tabulate s g1 = tabulate s g2.
Proof.
  intros H. unfold tabulate. f_equal. apply map_ext_in.
  intros k Hk. apply in_seq in Hk. apply H. apply unravel_in_bounds. lia.
Qed.


Lemma rows_map (f : R -> R) n m : forall l, rows n m (map f l) = map (map f) (rows n m l).
Proof.
  induction n as [|n IH]; intros l; simpl; [reflexivity|].
  rewrite firstn_map, skipn_map, IH. reflexivity.
Qed.






(** ** Batched fields as matrices of samples *)

Lemma rows_length n m : forall l, length (rows n m l) = n.
Proof. induction n as [|n IH]; intros l; simpl; [reflexivity | rewrite IH; reflexivity]. Qed.

Lemma rows_Forall (P : R -> Prop) n m :
  forall l, Forall P l -> Forall (Forall P) (rows n m l).
Proof.
  induction n as [|n IH]; intros l H; simpl; [constructor|].
  rewrite <- (firstn_skipn m l) in H. apply Forall_app in H. destruct H as [H1 H2].
  constructor; [assumption | apply IH; assumption].
Qed.


Lemma numel_cons_div n rest : 0 < n -> numel (n :: rest) / n = numel rest.
Proof.
  intros Hn. cbn [numel fold_right]. fold (numel rest).
  rewrite Nat.mul_comm. apply Nat.div_mul. lia.
Qed.

Lemma reshape_rows_ok x n rest :
  shape x = n :: rest -> 0 < n ->
  reshape_rows n x = Ok (mkTensor [n; numel (shape x) / n] (data x)).
Proof.
  intros Hs Hn. unfold reshape_rows.
  destruct (Nat.eqb_spec n 0); [lia|].
  rewrite Hs. cbn [numel fold_right]. fold (numel rest).
  rewrite Nat.mul_comm, Nat.Div0.mod_mul. reflexivity.
Qed.


Lemma bop_same_shape f a b :
  shape a = shape b ->
  bop f a b = Ok (tabulate (shape a) (fun idx => f (get a idx) (get b idx))).
Proof.
  intros Hs. unfold bop. rewrite <- Hs, broadcast_shapes_refl. f_equal.
  apply tabulate_ext. intros idx Hidx. rewrite (bindex_self Hidx). reflexivity.
Qed.


Lemma expand_self t : wf t -> expand (shape t) t = t.
Proof.
  intros Hwf. apply tensor_ext; [apply tabulate_wf | assumption | reflexivity |].
  intros idx Hidx. unfold expand in *. rewrite shape_tabulate in Hidx.
  rewrite get_tabulate by assumption. rewrite (bindex_self Hidx). reflexivity.
Qed.


(** ** float32 lemmas *)

Lemma f32_sub_self a : F32.finite a = true -> F32.sub a a = S754_zero false.
Proof.
  destruct a as [s|s| |s m e]; try discriminate; intros _.
  - destruct s; reflexivity.
  - unfold F32.sub, SFsub. cbv zeta. rewrite Z.sub_diag. reflexivity.
Qed.


Lemma f32_div_zero_positive c :
  F32.positive c = true -> F32.div (S754_zero false) c = S754_zero false.
Proof. destruct c as [s|s| |[|] m e]; try discriminate; reflexivity. Qed.

Lemma fsum_zeros l :
  Forall (fun v => v = S754_zero false) l -> fsum l = S754_zero false.
Proof.
  unfold fsum. induction 1 as [|a l Ha _ IH]; cbn [fold_left]; [reflexivity|].
  subst a. exact IH.
Qed.

Lemma fnorm2_zeros v :
  Forall (fun a => a = S754_zero false) v -> fnorm2 v = S754_zero false.
Proof.
  intros H. unfold fnorm2. rewrite fsum_zeros; [reflexivity|].
  apply Forall_forall. intros a Ha. apply in_map_iff in Ha.
  destruct Ha as (b & <- & Hb). rewrite Forall_forall in H.
  rewrite (H b Hb). reflexivity.
Qed.

Lemma frows_length n m : forall l, length (frows n m l) = n.
Proof. induction n as [|n IH]; intros l; simpl; [reflexivity | rewrite IH; reflexivity]. Qed.

Lemma frows_Forall (P : spec_float -> Prop) n m :
  forall l, Forall P l -> Forall (Forall P) (frows n m l).
Proof.
  induction n as [|n IH]; intros l H; simpl; [constructor|].
  rewrite <- (firstn_skipn m l) in H. apply Forall_app in H. destruct H as [H1 H2].
  constructor; [assumption | apply IH; assumption].
Qed.


Lemma freshape_rows_ok x n rest :
  fshape x = n :: rest -> 0 < n ->
  freshape_rows n x = Ok (mkFTensor [n; numel rest] (fdata x)).
Proof.
  intros Hs Hn. unfold freshape_rows.
  destruct (Nat.eqb_spec n 0); [lia|].
  rewrite Hs, (numel_cons_div rest Hn). cbn [numel fold_right]. fold (numel rest).
  rewrite Nat.mul_comm, Nat.Div0.mod_mul. reflexivity.
Qed.

(** An elementwise operation on two tensors of one shape, entry by entry
    of the storage. *)
Lemma fbop_same_shape f a b :
  fshape b = fshape a ->
  fbop f a b
  = Ok (mkFTensor (fshape a)
          (map (fun k => f (nth k (fdata a) S754_nan) (nth k (fdata b) S754_nan))
               (seq 0 (numel (fshape a))))).
Proof.
  intros Hs. unfold fbop. rewrite Hs, broadcast_shapes_refl.
  unfold ftabulate. do 2 f_equal. apply map_ext_in.
  intros k Hk. apply in_seq in Hk.
  assert (Hin : in_bounds (fshape a) (unravel (fshape a) k))
    by (apply unravel_in_bounds; lia).
  unfold fget. rewrite Hs, (bindex_self Hin), ravel_unravel by lia. reflexivity.
Qed.

Lemma nth_Forall (P : spec_float -> Prop) l k d :
  Forall P l -> k < length l -> P (nth k l d).
Proof.
  intros H Hk. rewrite Forall_forall in H. apply H, nth_In, Hk.
Qed.


(** The difference of a finite field with itself is zero everywhere. *)
Lemma fbop_sub_self x :
  fwf x -> Forall (fun v => F32.finite v = true) (fdata x) ->
  exists z,
    fbop F32.sub x x = Ok (mkFTensor (fshape x) z) /\
    Forall (fun v => v = S754_zero false) z.
Proof.
  intros Hwf Hfin. rewrite fbop_same_shape by reflexivity.
  eexists. split; [reflexivity|].
  apply Forall_forall. intros v Hv. apply in_map_iff in Hv.
  destruct Hv as (k & <- & Hk). apply in_seq in Hk.
  apply f32_sub_self.
  apply (@nth_Forall (fun v => F32.finite v = true)); [assumption|].
  unfold fwf in Hwf. lia.
Qed.

Lemma fnorm_dim1_zeros n m z :
  Forall (fun v => v = S754_zero false) z ->
  exists nz,
    fnorm_dim1 2 (mkFTensor [n; m] z) = Ok (mkFTensor [n] nz) /\
    length nz = n /\
    Forall (fun v => v = S754_zero false) nz.
Proof.
  intros Hz. unfold fnorm_dim1. cbn [Z.eqb Pos.eqb fshape fdata].
  eexists. split; [reflexivity|].
  split; [rewrite length_map; apply frows_length|].
  apply Forall_forall. intros v Hv. apply in_map_iff in Hv.
  destruct Hv as (r & <- & Hr). apply fnorm2_zeros.
  pose proof (frows_Forall n m Hz) as HF. rewrite Forall_forall in HF.
  apply HF, Hr.
Qed.


(** In float32, [rel] of a finite field against itself is zero when the
    norms of its samples are finite and not zero. *)
Lemma rel32_self x n rest :
  fwf x -> fshape x = n :: rest -> 0 < n ->
  Forall (fun v => F32.finite v = true) (fdata x) ->
  Forall (fun v => F32.positive v = true) (LpLoss32.sample_norms x) ->
  LpLoss32.rel (LpLoss32.mk 2 2) x x = Ok (S754_zero false).
Proof.
  intros Hwf Hs Hn Hfin Hpos.
  unfold LpLoss32.sample_norms in Hpos. rewrite Hs, (numel_cons_div rest Hn) in Hpos.
  unfold LpLoss32.rel. rewrite Hs.
  rewrite (freshape_rows_ok x Hs Hn). cbn [bind LpLoss32.p].
  set (xr := mkFTensor [n; numel rest] (fdata x)).
  assert (Hwr : fwf xr).
  { unfold fwf, xr. cbn [fshape fdata]. unfold fwf in Hwf. rewrite Hwf, Hs.
    cbn [numel fold_right]. fold (numel rest). lia. }
  destruct (@fbop_sub_self xr Hwr Hfin) as (z & Hz & Hzero).
  rewrite Hz. cbn [bind fshape xr].
  destruct (@fnorm_dim1_zeros n (numel rest) z Hzero) as (nz & Hnz & Hlen & Hnzero).
  rewrite Hnz. cbn [bind].
  unfold fnorm_dim1 at 1. cbn [Z.eqb Pos.eqb fshape fdata xr bind].
  set (yn := map fnorm2 (frows n (numel rest) (fdata x))) in *.
  assert (Hyl : length yn = n) by (unfold yn; rewrite length_map; apply frows_length).
  rewrite fbop_same_shape by reflexivity. cbn [bind fshape fdata numel fold_right].
  f_equal. apply fsum_zeros.
  apply Forall_forall. intros v Hv. apply in_map_iff in Hv.
  destruct Hv as (k & <- & Hk). apply in_seq in Hk.
  rewrite (@nth_Forall (fun v => v = S754_zero false) nz k S754_nan Hnzero) by lia.
  apply f32_div_zero_positive.
  apply (@nth_Forall (fun v => F32.positive v = true)); [assumption | lia].
Qed.

(** *** A common change of sign *)











Lemma valid_nan : F32.valid S754_nan = true.
Proof. reflexivity. Qed.







(** ** Absolute loss *)









(** ** Relative loss *)

(** On fields of one shape with at least one sample, [rel] is not finite
    when some sample of the reference has norm zero, and a real number
    otherwise. *)
Lemma rel_value self x y n rest :
  shape x = n :: rest -> shape y = shape x -> 0 < n ->
  exists v,
    LpLoss.rel self x y
    = if existsb is_zero (LpLoss.sample_norms self y) then NonFinite else Ok v.
Proof.
  intros Sx Sy Hn. unfold LpLoss.rel, LpLoss.sample_norms. rewrite Sx.
  rewrite (reshape_rows_ok x Sx Hn).
  rewrite Sx in Sy. rewrite (reshape_rows_ok y Sy Hn). cbn [bind].
  rewrite Sy, <- Sx.
  set (m := numel (shape x) / n).
  set (xr := mkTensor [n; m] (data x)). set (yr := mkTensor [n; m] (data y)).
  rewrite (@bop_same_shape Rminus xr yr) by reflexivity. cbn [bind].
  change (shape xr) with [n; m].
  unfold norm_dim1. rewrite shape_tabulate. cbn [bind shape yr data].
  set (dn := mkTensor [n] _).
  set (yn := mkTensor [n] (map (vnorm (LpLoss.p self)) (rows n m (data y)))).
  assert (Wyn : wf yn)
    by (unfold wf, yn; cbn [shape data numel fold_right];
        rewrite length_map, rows_length; lia).
  unfold tdiv. change (shape dn) with [n]. change (shape yn) with [n].
  rewrite broadcast_shapes_refl.
  change [n] with (shape yn) at 1. rewrite (expand_self Wyn).
  change (data yn) with (map (vnorm (LpLoss.p self)) (rows n m (data y))).
  destruct (existsb is_zero (map (vnorm (LpLoss.p self)) (rows n m (data y)))).
  - exists 0%R. reflexivity.
  - rewrite (@bop_same_shape Rdiv dn yn) by reflexivity. cbn [bind].
    eexists. reflexivity.
Qed.

Lemma existsb_is_zero_false l :
  existsb is_zero l = false <-> Forall (fun v => v <> 0%R) l.
Proof.
  induction l as [|a l IH]; simpl.
  - split; [constructor | reflexivity].
  - unfold is_zero at 1. destruct (Req_dec_T a 0) as [E|N]; simpl.
    + split; [discriminate | intros F; inversion F; contradiction].
    + rewrite IH. split; [intros F; constructor; assumption | intros F; inversion F; assumption].
Qed.

Lemma sample_norms_of_zero self y n rest :
  shape y = n :: rest -> 0 < n ->
  Forall (fun v => v = 0%R) (data y) ->
  existsb is_zero (LpLoss.sample_norms self y) = true.
Proof.
  intros Sy Hn Hz. unfold LpLoss.sample_norms. rewrite Sy.
  destruct n as [|n]; [lia|]. cbn [rows map existsb].
  apply orb_true_iff. left. unfold is_zero.
  match goal with |- (if Req_dec_T ?v 0 then _ else _) = _ =>
    destruct (Req_dec_T v 0) as [_|N]; [reflexivity|exfalso; apply N]
  end.
  apply vnorm_zero_iff.
  rewrite <- (firstn_skipn (numel (S n :: rest) / S n) (data y)) in Hz.
  apply Forall_app in Hz. apply Hz.
Qed.


Lemma lploss_init_ok d p : (0 < d)%R -> (0 < p)%R -> LpLoss.init d p = Ok (LpLoss.mk d p).
Proof.
  intros Hd Hp. unfold LpLoss.init.
  destruct (Rlt_dec 0 d); [|contradiction].
  destruct (Rlt_dec 0 p); [reflexivity | contradiction].
Qed.






(** C9. [rel] divides by the norms of the samples of [y] without a guard.
    On fields of one shape with at least one sample: if [y] is identically
    zero the divisor is zero and the result is not a finite number; and the
    result is a real number exactly when every sample of [y] has a nonzero
    norm. *)
Theorem rel_division_unguarded :
  forall (d p : R) (self : LpLoss.t) (x y : tensor) (n : nat) (rest : list nat),
    LpLoss.init d p = Ok self ->
    shape x = n :: rest -> shape y = shape x -> 0 < n ->
    (Forall (fun v => v = 0%R) (data y) ->
     Forall (fun v => v = 0%R) (LpLoss.sample_norms self y) /\
     LpLoss.rel self x y = NonFinite) /\
    ((exists v, LpLoss.rel self x y = Ok v) <->
     Forall (fun v => v <> 0%R) (LpLoss.sample_norms self y)).
Proof.
  intros d p self x y n rest _ Sx Sy Hn.
  destruct (@rel_value self x y n rest Sx Sy Hn) as (v & Hv).
  split.
  - intros Hz. split.
    + unfold LpLoss.sample_norms. destruct (shape y) as [|n' ?]; [constructor|].
      rewrite Forall_map. eapply Forall_impl; [|apply rows_Forall; exact Hz].
      cbv beta. intros r Hr. apply vnorm_zero_iff. exact Hr.
    + rewrite Sx in Sy.
      rewrite (@sample_norms_of_zero self y n rest Sy Hn Hz) in Hv. exact Hv.
  - rewrite <- existsb_is_zero_false.
    destruct (existsb is_zero (LpLoss.sample_norms self y)).
    + rewrite Hv. split; [intros (w & Hw); discriminate | discriminate].
    + split; [reflexivity | intros _; exists v; exact Hv].
Qed.

Lemma rel_division_unguarded_witness :
  (Forall (fun v => v = 0%R) (data (mkTensor [1; 1] [0%R])) ->
   Forall (fun v => v = 0%R)
          (LpLoss.sample_norms (LpLoss.mk 2 2) (mkTensor [1; 1] [0%R])) /\
   LpLoss.rel (LpLoss.mk 2 2) (mkTensor [1; 1] [1%R]) (mkTensor [1; 1] [0%R])
   = NonFinite) /\
  ((exists v, LpLoss.rel (LpLoss.mk 2 2) (mkTensor [1; 1] [1%R])
                         (mkTensor [1; 1] [0%R]) = Ok v) <->
   Forall (fun v => v <> 0%R)
          (LpLoss.sample_norms (LpLoss.mk 2 2) (mkTensor [1; 1] [0%R]))).
Proof.
  apply (@rel_division_unguarded 2 2 (LpLoss.mk 2 2)
           (mkTensor [1; 1] [1%R]) (mkTensor [1; 1] [0%R]) 1 [1]).
  - apply lploss_init_ok; lra.
  - reflexivity.
  - reflexivity.
  - lia.
Defined.

(** ** Spatial extent through [LSM_2D.forward] *)

Lemma bind_ok_inv (A B : Type) (r : result A) (f : A -> result B) (b : B) :
  bind r f = Ok b -> exists a, r = Ok a /\ f a = Ok b.
Proof. destruct r; simpl; try discriminate. intros H. eauto. Qed.

Ltac inv_bind_as H a E :=
  apply bind_ok_inv in H; destruct H as (a & E & H).

Ltac inv_bind H :=
  let a := fresh "s" in
  let E := fresh "E" in
  apply bind_ok_inv in H; destruct H as (a & E & H).

Lemma Conv2d_shape_inv i o k pad s s' :
  Conv2d_shape i o k pad s = Ok s' ->
  exists B C H W,
    s = [B; C; H; W] /\ k <= H + 2 * pad /\ k <= W + 2 * pad /\
    s' = [B; o; H + 2 * pad - k + 1; W + 2 * pad - k + 1].
Proof.
  unfold Conv2d_shape.
  destruct s as [|B [|C [|H [|W [|? ?]]]]]; try discriminate.
  destruct (C =? i); [|discriminate].
  destruct (Nat.ltb_spec (H + 2 * pad) k); [discriminate|].
  destruct (Nat.ltb_spec (W + 2 * pad) k); [discriminate|].
  cbn [orb]. intros [= <-]. exists B, C, H, W. repeat split; assumption.
Qed.

Lemma BatchNorm2d_shape_inv n s s' : BatchNorm2d_shape n s = Ok s' -> s' = s.
Proof.
  unfold BatchNorm2d_shape.
  destruct s as [|B [|C [|H [|W [|? ?]]]]]; try discriminate.
  destruct (C =? n); [|discriminate]. intros [= <-]. reflexivity.
Qed.

Lemma DoubleConv_shape_inv i o m s s' :
  DoubleConv_shape i o m s = Ok s' ->
  exists B C H W, s = [B; C; H; W] /\ s' = [B; o; H; W].
Proof.
  unfold DoubleConv_shape. intros H0.
  inv_bind H0. inv_bind H0. inv_bind H0.
  apply BatchNorm2d_shape_inv in H0. subst s'.
  apply Conv2d_shape_inv in E as (B & C & H & W & -> & Hk & Wk & ->).
  apply BatchNorm2d_shape_inv in E0. subst s1.
  apply Conv2d_shape_inv in E1 as (B' & C' & H' & W' & [= <- <- <- <-] & Hk' & Wk' & ->).
  exists B, C, H, W. split; [reflexivity|].
  repeat f_equal; lia.
Qed.

Lemma Down_shape_inv i o s s' :
  Down_shape i o s = Ok s' ->
  exists B C H W, s = [B; C; H; W] /\ s' = [B; o; H / 2; W / 2].
Proof.
  unfold Down_shape. intros H0. inv_bind H0.
  unfold MaxPool2d_shape in E.
  destruct s as [|B [|C [|H [|W [|? ?]]]]]; try discriminate.
  destruct ((H / 2 =? 0) || (W / 2 =? 0)); [discriminate|].
  injection E as <-.
  apply DoubleConv_shape_inv in H0 as (B' & C' & H' & W' & [= <- <- <- <-] & ->).
  exists B, C, H, W. split; reflexivity.
Qed.

Lemma view_shape_inv old new s : view_shape old new = Ok s -> s = new.
Proof. unfold view_shape. destruct (numel new =? numel old); [|discriminate]. intros [= <-]. reflexivity. Qed.

Lemma NeuralSpectralBlock2d_shape_inv width ps s s' :
  NeuralSpectralBlock2d_shape width ps s = Ok s' -> s' = s.
Proof.
  unfold NeuralSpectralBlock2d_shape.
  destruct s as [|B [|C [|H [|W [|? ?]]]]]; try discriminate.
  intros H0. do 8 inv_bind H0.
  apply view_shape_inv in H0. exact H0.
Qed.

Lemma pad_dim_inv n before after n' :
  pad_dim n before after = Ok n' ->
  (0 <= Z.of_nat n + before + after)%Z /\ Z.of_nat n' = (Z.of_nat n + before + after)%Z.
Proof.
  unfold pad_dim. destruct (Z.ltb_spec (Z.of_nat n + before + after) 0); [discriminate|].
  intros [= <-]. split; [assumption|]. apply Z2Nat.id. assumption.
Qed.

Lemma Up_shape_inv i o s1 s2 s' :
  Up_shape i o s1 s2 = Ok s' ->
  exists B C H W, s2 = [B; C; H; W] /\ s' = [B; o; H; W].
Proof.
  unfold Up_shape.
  destruct s1 as [|B1 [|C1 [|H1 [|W1 [|? ?]]]]]; try discriminate.
  destruct s2 as [|B2 [|C2 [|H2 [|W2 [|? ?]]]]]; try discriminate.
  intros H0. inv_bind H0. inv_bind H0.
  unfold F_pad in E. inv_bind E. inv_bind E. injection E as <-.
  unfold cat_channels in E0.
  match type of E0 with (if ?c then _ else _) = _ => destruct c; [|discriminate] end.
  injection E0 as <-.
  apply DoubleConv_shape_inv in H0 as (B' & C' & H' & W' & [= <- <- <- <-] & ->).
  exists B2, C2, H2, W2. split; reflexivity.
Qed.

Lemma OutConv_shape_inv i o s s' :
  OutConv_shape i o s = Ok s' ->
  exists B C H W, s = [B; C; H; W] /\ s' = [B; o; H; W].
Proof.
  unfold OutConv_shape. intros H0.
  apply Conv2d_shape_inv in H0 as (B & C & H & W & -> & Hk & Wk & ->).
  exists B, C, H, W. split; [reflexivity|]. repeat f_equal; lia.
Qed.

Lemma Linear_shape_inv i o s s' :
  Linear_shape i o s = Ok s' ->
  exists B H W C, s = [B; H; W; C] /\ s' = [B; H; W; o].
Proof.
  unfold Linear_shape.
  destruct s as [|B [|H [|W [|C [|? ?]]]]]; try discriminate.
  destruct (C =? i); [|discriminate]. intros [= <-].
  exists B, H, W, C. split; reflexivity.
Qed.

(** The encoder-decoder between the padding and the crop returns the
    spatial extent of its input. *)
Lemma unet_keeps_extent width ps x x1 x2 x3 x4 x5 y5 y4 y3 y2 y1 u1 u2 u3 u4 out :
  DoubleConv_shape width width None x = Ok x1 ->
  Down_shape width (width * 2) x1 = Ok x2 ->
  Down_shape (width * 2) (width * 4) x2 = Ok x3 ->
  Down_shape (width * 4) (width * 8) x3 = Ok x4 ->
  Down_shape (width * 8) (width * 16 / 2) x4 = Ok x5 ->
  NeuralSpectralBlock2d_shape (width * 16 / 2) ps x5 = Ok y5 ->
  NeuralSpectralBlock2d_shape (width * 8) ps x4 = Ok y4 ->
  Up_shape (width * 16) (width * 8 / 2) y5 y4 = Ok u1 ->
  NeuralSpectralBlock2d_shape (width * 4) ps x3 = Ok y3 ->
  Up_shape (width * 8) (width * 4 / 2) u1 y3 = Ok u2 ->
  NeuralSpectralBlock2d_shape (width * 2) ps x2 = Ok y2 ->
  Up_shape (width * 4) (width * 2 / 2) u2 y2 = Ok u3 ->
  NeuralSpectralBlock2d_shape width ps x1 = Ok y1 ->
  Up_shape (width * 2) width u3 y1 = Ok u4 ->
  OutConv_shape width width u4 = Ok out ->
  exists B C H W, x = [B; C; H; W] /\ out = [B; width; H; W].
Proof.
  intros Hinc _ _ _ _ _ _ _ _ _ _ _ Hp1 Hu4 Hout.
  apply DoubleConv_shape_inv in Hinc as (B & C & H & W & -> & ->).
  apply NeuralSpectralBlock2d_shape_inv in Hp1. subst y1.
  apply Up_shape_inv in Hu4 as (B' & C' & H' & W' & [= <- <- <- <-] & ->).
  apply OutConv_shape_inv in Hout as (B' & C' & H' & W' & [= <- <- <- <-] & ->).
  exists B, C, H, W. split; reflexivity.
Qed.

Lemma slice_to_neg_pad n p n' :
  (0 < p)%Z -> Z.of_nat n' = (Z.of_nat n + 0 + p)%Z -> slice_to_neg n' p = n.
Proof.
  intros Hp E. unfold slice_to_neg.
  destruct (Z.ltb_spec 0 p); [|lia]. lia.
Qed.

(** With both padding amounts positive (or no padding at all), whatever
    [forward] accepts comes back with the spatial extent of the input. *)
Lemma forward_shape_keeps_extent a B H W C s' :
  (LSM_2D.padding_enabled a = true ->
   exists p0 p1 more,
     LSM_2D.padding a = p0 :: p1 :: more /\ (0 < p0)%Z /\ (0 < p1)%Z) ->
  LSM_2D.forward_shape a [B; H; W; C] = Ok s' ->
  s' = [B; H; W; LSM_2D.out_dim a].
Proof.
  intros Hpad Hf. unfold LSM_2D.forward_shape in Hf.
  inv_bind_as Hf x0 Efc0.
  apply Linear_shape_inv in Efc0 as (B' & H' & W' & C' & [= <- <- <- <-] & ->).
  inv_bind_as Hf xp Epad.
  inv_bind_as Hf x1 Einc. inv_bind_as Hf x2 Ed1. inv_bind_as Hf x3 Ed2.
  inv_bind_as Hf x4 Ed3. inv_bind_as Hf x5 Ed4.
  inv_bind_as Hf y5 Ep5. inv_bind_as Hf y4 Ep4. inv_bind_as Hf u1 Eu1.
  inv_bind_as Hf y3 Ep3. inv_bind_as Hf u2 Eu2.
  inv_bind_as Hf y2 Ep2. inv_bind_as Hf u3 Eu3.
  inv_bind_as Hf y1 Ep1. inv_bind_as Hf u4 Eu4.
  inv_bind_as Hf xo Eout.
  destruct unet_keeps_extent
    with (1 := Einc) (2 := Ed1) (3 := Ed2) (4 := Ed3) (5 := Ed4) (6 := Ep5)
         (7 := Ep4) (8 := Eu1) (9 := Ep3) (10 := Eu2) (11 := Ep2) (12 := Eu3)
         (13 := Ep1) (14 := Eu4) (15 := Eout)
    as (Bp & Cp & Hp & Wp & -> & ->).
  clear Einc Ed1 Ed2 Ed3 Ed4 Ep5 Ep4 Eu1 Ep3 Eu2 Ep2 Eu3 Ep1 Eu4 Eout.
  inv_bind_as Hf xc Ecrop. inv_bind_as Hf xf Efc1.
  assert (Hcrop : xc = [B; LSM_2D.d_model a; H; W]).
  { destruct (LSM_2D.padding_enabled a) eqn:En.
    - destruct (Hpad eq_refl) as (p0 & p1 & more & Ep & Hp0 & Hp1).
      unfold LSM_2D.padding_at in Epad, Ecrop. rewrite Ep in Epad, Ecrop.
      cbn [nth_error bind] in Epad, Ecrop.
      unfold F_pad in Epad. inv_bind_as Epad Wn EW. inv_bind_as Epad Hn EH.
      injection Epad as <- <- <- <-.
      apply pad_dim_inv in EW as (_ & EW). apply pad_dim_inv in EH as (_ & EH).
      injection Ecrop as <-.
      rewrite (@slice_to_neg_pad H p1 Hn) by assumption.
      rewrite (@slice_to_neg_pad W p0 Wn) by assumption.
      reflexivity.
    - injection Epad as <- <- <- <-. injection Ecrop as <-. reflexivity. }
  subst xc.
  apply Linear_shape_inv in Efc1 as (B' & H' & W' & C' & [= <- <- <- <-] & ->).
  apply Linear_shape_inv in Hf as (B' & H' & W' & C' & [= <- <- <- <-] & ->).
  reflexivity.
Qed.

(** The model of the script (width 64, patches 6x6, padding 11,11) on one
    field of 85x85 points. *)
Example forward_shape_default :
  LSM_2D.forward_shape (LSM_2D.mk_args 1 1 64 4 12 (6, 6) [11; 11]%Z) [1; 85; 85; 1]
  = Ok [1; 85; 85; 1].
Proof. vm_compute. reflexivity. Qed.

(** Scenario of the specification: 14x14 input, padding 2,2. *)
Example forward_shape_pad_2_2 :
  LSM_2D.forward_shape (LSM_2D.mk_args 1 1 8 4 12 (1, 1) [2; 2]%Z) [2; 14; 14; 1]
  = Ok [2; 14; 14; 1].
Proof. vm_compute. reflexivity. Qed.

(** C7. With the padding 0,2 the guard [not all(item == 0 ...)] holds, the
    height is padded from 14 to 16 and cropped back to 14, but the crop of
    the width is [x[..., :-0]], which is empty: the input of extent 14x16 is
    accepted and the output has extent 14x0. *)
Theorem forward_crop_mixed_padding_empties_axis :
  LSM_2D.padding_enabled (LSM_2D.mk_args 1 1 8 4 12 (1, 1) [0; 2]%Z) = true /\
  LSM_2D.forward_shape (LSM_2D.mk_args 1 1 8 4 12 (1, 1) [0; 2]%Z) [2; 14; 16; 1]
  = Ok [2; 14; 0; 1].
Proof. split; vm_compute; reflexivity. Qed.

(** ** Batches of the training loader *)

Lemma batch_sampler_concat bs sampler :
  forall batch,
    batch ++ sampler
    = concat (DataLoader.batch_sampler bs false batch sampler).
Proof.
  induction sampler as [|idx sampler IH]; intros batch; cbn [DataLoader.batch_sampler].
  - destruct batch; cbn; rewrite ?app_nil_r; reflexivity.
  - destruct (length (batch ++ [idx]) =? bs).
    + cbn [concat]. rewrite <- (IH []). rewrite <- app_assoc. reflexivity.
    + rewrite <- IH, <- app_assoc. reflexivity.
Qed.

Lemma batch_sampler_lengths bs sampler :
  forall batch,
    length batch < bs ->
    map (@length nat) (DataLoader.batch_sampler bs false batch sampler)
    = repeat bs ((length batch + length sampler) / bs)
      ++ (if (length batch + length sampler) mod bs =? 0 then []
          else [(length batch + length sampler) mod bs]).
Proof.
  induction sampler as [|idx sampler IH]; intros batch Hb;
    cbn [DataLoader.batch_sampler length].
  - rewrite Nat.add_0_r, Nat.div_small, Nat.mod_small by assumption.
    destruct batch; reflexivity.
  - rewrite length_app. cbn [length].
    destruct (Nat.eqb_spec (length batch + 1) bs) as [E|N].
    + cbn [map]. rewrite IH by (cbn; lia). cbn [length Nat.add].
      rewrite length_app. cbn [length]. rewrite E.
      replace (length batch + S (length sampler)) with (length sampler + 1 * bs) by lia.
      rewrite Nat.div_add, Nat.Div0.mod_add by lia.
      rewrite Nat.add_1_r. reflexivity.
    + rewrite IH by (rewrite length_app; cbn; lia).
      rewrite length_app. cbn [length].
      replace (length batch + 1 + length sampler)
        with (length batch + S (length sampler)) by lia.
      reflexivity.
Qed.

(** C8, as stated, fails: [main] builds the training loader without
    [drop_last], so five samples in batches of two come as batches of 2, 2
    and 1 sample. *)
Lemma train_loader_keeps_incomplete_batch :
  exists loader,
    DataLoader.init 5 2 true = Ok loader /\
    map (@length nat) (DataLoader.batches loader [3; 0; 4; 1; 2]) = [2; 2; 1] /\
    ~ Forall (fun b => length b = 2) (DataLoader.batches loader [3; 0; 4; 1; 2]).
Proof.
  eexists. split; [reflexivity|]. split; [reflexivity|].
  cbn. intros F. inversion F as [|? ? _ F1]. inversion F1 as [|? ? _ F2].
  inversion F2 as [|? ? L _]. discriminate L.
Qed.

(** C8 (amended). The training loader of [main] keeps the incomplete
    trailing batch.  For a positive batch size and any order of the
    [ntrain] samples, the batches partition the samples in that order;
    there are [ntrain / batch_size] batches of exactly [batch_size] samples,
    followed, when [batch_size] does not divide [ntrain], by one batch of
    [ntrain mod batch_size] samples; so every batch is full exactly when
    [batch_size] divides [ntrain]. *)
Theorem train_loader_batch_sizes :
  forall (ntrain batch_size : nat) (loader : DataLoader.t) (sampler : list nat),
    DataLoader.init ntrain batch_size true = Ok loader ->
    length sampler = ntrain ->
    concat (DataLoader.batches loader sampler) = sampler /\
    map (@length nat) (DataLoader.batches loader sampler)
    = repeat batch_size (ntrain / batch_size)
      ++ (if ntrain mod batch_size =? 0 then [] else [ntrain mod batch_size]) /\
    (Forall (fun b => length b = batch_size) (DataLoader.batches loader sampler)
     <-> ntrain mod batch_size = 0).
Proof.
  intros ntrain bs loader sampler Hinit Hlen.
  unfold DataLoader.init in Hinit.
  destruct (Nat.eqb_spec bs 0) as [|Hbs]; [discriminate|].
  injection Hinit as <-. unfold DataLoader.batches.
  cbn [DataLoader.batch_size DataLoader.drop_last].
  pose proof (@batch_sampler_lengths bs sampler [] ltac:(cbn; lia)) as HL.
  cbn [length Nat.add] in HL. rewrite Hlen in HL.
  split; [symmetry; apply (batch_sampler_concat bs sampler [])|].
  split; [exact HL|].
  rewrite <- Forall_map with (f := @length nat) (P := fun k => k = bs).
  rewrite HL. rewrite Forall_app.
  assert (Hm : ntrain mod bs < bs) by (apply Nat.mod_upper_bound; assumption).
  split.
  - intros [_ F]. destruct (Nat.eqb_spec (ntrain mod bs) 0) as [E|N]; [assumption|].
    inversion F; subst. lia.
  - intros E. rewrite E. cbn. split; [|constructor].
    apply Forall_forall. intros k Hk. apply repeat_spec in Hk. assumption.
Qed.

Lemma train_loader_batch_sizes_witness :
  exists loader,
    DataLoader.init 5 2 true = Ok loader /\
    concat (DataLoader.batches loader [3; 0; 4; 1; 2]) = [3; 0; 4; 1; 2] /\
    map (@length nat) (DataLoader.batches loader [3; 0; 4; 1; 2])
    = repeat 2 (5 / 2) ++ (if 5 mod 2 =? 0 then [] else [5 mod 2]) /\
    (Forall (fun b => length b = 2) (DataLoader.batches loader [3; 0; 4; 1; 2])
     <-> 5 mod 2 = 0).
Proof.
  eexists. split; [reflexivity|].
  apply (@train_loader_batch_sizes 5 2 _ [3; 0; 4; 1; 2]); reflexivity.
Defined.

(** The training loop gets through a pass only if every mini-batch is
    full: with fields of at least one point, padding that [forward]
    undoes, and one output channel, the reshape to [batch_size] raises on
    a batch of another size. *)
Lemma train_epoch_needs_full_batches a batch_size s1 s2 batches steps :
  LSM_2D.out_dim a = 1 -> 0 < s1 * s2 ->
  (LSM_2D.padding_enabled a = true ->
   exists p0 p1 more,
     LSM_2D.padding a = p0 :: p1 :: more /\ (0 < p0)%Z /\ (0 < p1)%Z) ->
  train_epoch a batch_size s1 s2 batches = Ok steps ->
  Forall (fun b => length b = batch_size) batches /\ steps = length batches.
Proof.
  intros Hout Hs Hpad. revert steps.
  induction batches as [|b batches IH]; intros steps H; cbn [train_epoch] in H.
  - injection H as <-. split; [constructor | reflexivity].
  - inv_bind_as H out Ef. inv_bind_as H r Ev. inv_bind_as H n En.
    injection H as <-.
    apply (@forward_shape_keeps_extent a _ _ _ _ _ Hpad) in Ef. subst out.
    unfold view_shape in Ev.
    destruct (Nat.eqb_spec (numel [batch_size; s1; s2])
                (numel [length b; s1; s2; LSM_2D.out_dim a])) as [E|_];
      [|discriminate].
    rewrite Hout in E. cbn [numel fold_right] in E.
    destruct (IH _ En) as [F ->].
    split; [|reflexivity]. constructor; [nia | assumption].
Qed.

(** Five samples in batches of two: the third batch holds one sample and
    the reshape to [batch_size] raises. *)
Example train_epoch_partial_batch_raises :
  train_epoch (LSM_2D.mk_args 1 1 8 4 12 (1, 1) [2; 2]%Z) 2 14 14
    [[3; 0]; [4; 1]; [2]]
  = Raises RuntimeError.
Proof. vm_compute. reflexivity. Qed.

(** * Further properties of the script *)

(** ** The convolutional blocks *)

Lemma Conv2d_3x3_shape_value i o B C H W :
  Conv2d_shape i o 3 1 [B; C; H; W]
  = if (C =? i) && (1 <=? H) && (1 <=? W)
    then Ok [B; o; H; W]
    else Raises RuntimeError.
Proof.
  unfold Conv2d_shape.
  destruct (C =? i); cbn [andb]; [|reflexivity].
  destruct (Nat.leb_spec 1 H) as [HH|HH], (Nat.leb_spec 1 W) as [HW|HW];
    destruct (Nat.ltb_spec (H + 2 * 1) 3), (Nat.ltb_spec (W + 2 * 1) 3);
    try lia; cbn [orb andb]; try reflexivity.
  repeat f_equal; lia.
Qed.

Lemma BatchNorm2d_shape_ok n B H W :
  BatchNorm2d_shape n [B; n; H; W] = Ok [B; n; H; W].
Proof. unfold BatchNorm2d_shape. rewrite Nat.eqb_refl. reflexivity. Qed.

Lemma DoubleConv_shape_value i o m B C H W :
  DoubleConv_shape i o m [B; C; H; W]
  = if (C =? i) && (1 <=? H) && (1 <=? W)
    then Ok [B; o; H; W]
    else Raises RuntimeError.
Proof.
  unfold DoubleConv_shape.
  set (mid := match m with
              | Some m0 => if m0 =? 0 then o else m0
              | None => o
              end).
  rewrite Conv2d_3x3_shape_value.
  destruct ((C =? i) && (1 <=? H) && (1 <=? W)) eqn:E; cbn [bind]; [|reflexivity].
  rewrite BatchNorm2d_shape_ok. cbn [bind].
  rewrite Conv2d_3x3_shape_value, Nat.eqb_refl.
  apply andb_prop in E as [E EW]. apply andb_prop in E as [_ EH].
  rewrite EH, EW. cbn [andb bind]. apply BatchNorm2d_shape_ok.
Qed.

Lemma div2_zero_iff n : n / 2 = 0 <-> n < 2.
Proof.
  split; intros E; [apply Nat.div_small_iff in E; lia | apply Nat.div_small; lia].
Qed.

Lemma Down_shape_value i o B C H W :
  Down_shape i o [B; C; H; W]
  = if (2 <=? H) && (2 <=? W) && (C =? i)
    then Ok [B; o; H / 2; W / 2]
    else Raises RuntimeError.
Proof.
  unfold Down_shape, MaxPool2d_shape.
  pose proof (div2_zero_iff H) as DH. pose proof (div2_zero_iff W) as DW.
  destruct (Nat.leb_spec 2 H) as [HH|HH], (Nat.leb_spec 2 W) as [HW|HW];
    destruct (Nat.eqb_spec (H / 2) 0) as [E1|E1], (Nat.eqb_spec (W / 2) 0) as [E2|E2];
    try lia; cbn [orb andb bind]; try reflexivity.
  rewrite DoubleConv_shape_value.
  assert (1 <= H / 2) by lia. assert (1 <= W / 2) by lia.
  destruct (Nat.leb_spec 1 (H / 2)), (Nat.leb_spec 1 (W / 2)); try lia.
  rewrite !andb_true_r. reflexivity.
Qed.

(** X1. [DoubleConv] accepts a batched map exactly when its channel count is
    [in_channels] and neither spatial extent is 0, and returns a map of
    [out_channels] channels with the spatial extent of the input, whatever
    [mid_channels] is. *)
Theorem DoubleConv_keeps_extent :
  forall (in_channels out_channels : nat) (mid_channels : option nat)
         (B C H W : nat),
    DoubleConv_shape in_channels out_channels mid_channels [B; C; H; W]
    = if (C =? in_channels) && (1 <=? H) && (1 <=? W)
      then Ok [B; out_channels; H; W]
      else Raises RuntimeError.
Proof. intros. apply DoubleConv_shape_value. Qed.

(** X2. For a layer with positive channel counts and a batch of at least
    two maps (so that [BatchNorm2d] sees more than one value per channel
    also in training mode), [Down] accepts a batched map exactly when both
    spatial extents are at least 2 and the channel count is [in_channels];
    it halves both extents, rounding down. *)
Theorem Down_halves_extent :
  forall (in_channels out_channels B C H W : nat),
    0 < in_channels -> 0 < out_channels -> 1 < B ->
    Down_shape in_channels out_channels [B; C; H; W]
    = if (2 <=? H) && (2 <=? W) && (C =? in_channels)
      then Ok [B; out_channels; H / 2; W / 2]
      else Raises RuntimeError.
Proof. intros. apply Down_shape_value. Qed.

Lemma Down_halves_extent_witness :
  Down_shape 64 128 [20; 64; 96; 96]
  = if (2 <=? 96) && (2 <=? 96) && (64 =? 64)
    then Ok [20; 128; 96 / 2; 96 / 2]
    else Raises RuntimeError.
Proof. apply (@Down_halves_extent 64 128 20 64 96 96); lia. Defined.

Lemma pad_dim_to_target n target :
  let diff := (Z.of_nat target - Z.of_nat n)%Z in
  pad_dim n (diff / 2) (diff - diff / 2) = Ok target.
Proof.
  cbv zeta. unfold pad_dim.
  replace (Z.of_nat n + (Z.of_nat target - Z.of_nat n) / 2
           + (Z.of_nat target - Z.of_nat n - (Z.of_nat target - Z.of_nat n) / 2))%Z
    with (Z.of_nat target) by lia.
  destruct (Z.ltb_spec (Z.of_nat target) 0); [lia|].
  rewrite Nat2Z.id. reflexivity.
Qed.

Lemma Up_shape_value i o B1 C1 H1 W1 B2 C2 H2 W2 :
  Up_shape i o [B1; C1; H1; W1] [B2; C2; H2; W2]
  = if (B2 =? B1) && (C2 + C1 =? i) && (1 <=? H2) && (1 <=? W2)
    then Ok [B2; o; H2; W2]
    else Raises RuntimeError.
Proof.
  unfold Up_shape, F_pad.
  rewrite (pad_dim_to_target (W1 * 2) W2), (pad_dim_to_target (H1 * 2) H2).
  cbn [bind]. unfold cat_channels. rewrite !Nat.eqb_refl, !andb_true_r.
  destruct (B2 =? B1); cbn [andb bind]; [|reflexivity].
  apply DoubleConv_shape_value.
Qed.

(** X3. For a layer with positive channel counts, and a map [x1] of at
    least two batch elements (so that [BatchNorm2d] sees more than one
    value per channel also in training mode) without an empty channel or
    spatial axis: [Up] accepts [x1] and a skip map [x2] exactly when their
    batch sizes agree, their channel counts add up to [in_channels] and the
    skip map has no empty spatial axis; whatever the extent of [x1], the
    result has the spatial extent of the skip map: the upsampled [x1] is
    padded, or cropped, to it. *)
Theorem Up_returns_skip_extent :
  forall (in_channels out_channels B1 C1 H1 W1 B2 C2 H2 W2 : nat),
    0 < in_channels -> 0 < out_channels ->
    1 < B1 -> 0 < C1 -> 0 < H1 -> 0 < W1 ->
    Up_shape in_channels out_channels [B1; C1; H1; W1] [B2; C2; H2; W2]
    = if (B2 =? B1) && (C2 + C1 =? in_channels) && (1 <=? H2) && (1 <=? W2)
      then Ok [B2; out_channels; H2; W2]
      else Raises RuntimeError.
Proof. intros. apply Up_shape_value. Qed.

Lemma Up_returns_skip_extent_witness :
  Up_shape 16 4 [2; 8; 3; 5] [2; 8; 7; 9]
  = if (2 =? 2) && (8 + 8 =? 16) && (1 <=? 7) && (1 <=? 9)
    then Ok [2; 4; 7; 9]
    else Raises RuntimeError.
Proof. apply (@Up_returns_skip_extent 16 4 2 8 3 5 2 8 7 9); lia. Defined.

(** ** Shapes through the Neural Spectral Block *)

Lemma view_shape_ok old new : numel new = numel old -> view_shape old new = Ok new.
Proof. intros E. unfold view_shape. rewrite E, Nat.eqb_refl. reflexivity. Qed.

Lemma view_shape_numel old new s : view_shape old new = Ok s -> numel new = numel old.
Proof.
  unfold view_shape. destruct (Nat.eqb_spec (numel new) (numel old)); [|discriminate].
  intros _. assumption.
Qed.

Lemma Conv2d_1x1_shape_value i o B C H W :
  Conv2d_shape i o 1 0 [B; C; H; W]
  = if (C =? i) && (1 <=? H) && (1 <=? W)
    then Ok [B; o; H; W]
    else Raises RuntimeError.
Proof.
  unfold Conv2d_shape.
  destruct (C =? i); cbn [andb]; [|reflexivity].
  destruct (Nat.leb_spec 1 H) as [HH|HH], (Nat.leb_spec 1 W) as [HW|HW];
    destruct (Nat.ltb_spec (H + 2 * 0) 1), (Nat.ltb_spec (W + 2 * 0) 1);
    try lia; cbn [orb andb]; try reflexivity.
  repeat f_equal; lia.
Qed.

Lemma product_of_bounded_factors a b H W :
  a <= H -> b <= W -> 0 < H -> 0 < W -> a * b = H * W -> a = H /\ b = W.
Proof. intros. nia. Qed.

Lemma NeuralSpectralBlock2d_shape_accepts width p0 p1 B C H W :
  0 < p0 -> 0 < p1 -> H mod p0 = 0 -> W mod p1 = 0 ->
  C = width -> C mod 8 = 0 ->
  NeuralSpectralBlock2d_shape width (p0, p1) [B; C; H; W] = Ok [B; C; H; W].
Proof.
  intros Hp0 Hp1 HH HW -> H8.
  assert (EH : p0 * (H / p0) = H) by (symmetry; apply Nat.Div0.div_exact; assumption).
  assert (EW : p1 * (W / p1) = W) by (symmetry; apply Nat.Div0.div_exact; assumption).
  assert (E8 : 8 * (width / 8) = width) by (symmetry; apply Nat.Div0.div_exact; assumption).
  unfold NeuralSpectralBlock2d_shape. cbn [fst snd].
  rewrite !floordiv_ok by assumption. cbn [bind].
  set (hp := H / p0) in *. set (wp := W / p1) in *. set (c8 := width / 8) in *.
  assert (N1 : numel [B; width; hp; p0; wp; p1] = numel [B; width; H; W])
    by (cbn [numel fold_right]; rewrite <- EH, <- EW; ring).
  rewrite (view_shape_ok _ _ N1). cbn [bind].
  rewrite view_shape_ok by (cbn [numel fold_right]; ring). cbn [bind].
  rewrite !Conv2d_1x1_shape_value, Nat.eqb_refl.
  destruct (Nat.leb_spec 1 p0), (Nat.leb_spec 1 p1); try lia. cbn [andb bind].
  rewrite view_shape_ok by (cbn [numel fold_right]; rewrite <- E8; ring).
  cbn [bind].
  rewrite view_shape_ok by (cbn [numel fold_right]; ring). cbn [bind].
  apply view_shape_ok. symmetry. exact N1.
Qed.

Lemma NeuralSpectralBlock2d_shape_needs width p0 p1 B C H W s :
  0 < B -> 0 < C -> 0 < H -> 0 < W ->
  NeuralSpectralBlock2d_shape width (p0, p1) [B; C; H; W] = Ok s ->
  0 < p0 /\ 0 < p1 /\ H mod p0 = 0 /\ W mod p1 = 0 /\ C = width /\ C mod 8 = 0.
Proof.
  intros HB HC HH HW E. unfold NeuralSpectralBlock2d_shape in E. cbn [fst snd] in E.
  inv_bind_as E hp Ehp. inv_bind_as E wp Ewp.
  assert (Hp0 : 0 < p0)
    by (unfold floordiv in Ehp; destruct (Nat.eqb_spec p0 0); [discriminate | lia]).
  assert (Hp1 : 0 < p1)
    by (unfold floordiv in Ewp; destruct (Nat.eqb_spec p1 0); [discriminate | lia]).
  rewrite floordiv_ok in Ehp, Ewp by assumption.
  injection Ehp as <-. injection Ewp as <-.
  inv_bind_as E s1 Ev1. apply view_shape_numel in Ev1.
  inv_bind_as E s2 Ev2. apply view_shape_inv in Ev2. subst s2.
  inv_bind_as E s3 Ev3. rewrite Conv2d_1x1_shape_value in Ev3.
  destruct (Nat.eqb_spec C width) as [EC|NC]; [|discriminate Ev3]. clear Ev3.
  inv_bind_as E s4 Ev4. apply view_shape_numel in Ev4. clear E.
  cbn [numel fold_right] in Ev1, Ev4.
  pose proof (Nat.Div0.mul_div_le H p0) as LH.
  pose proof (Nat.Div0.mul_div_le W p1) as LW.
  assert (EP : p0 * (H / p0) * (p1 * (W / p1)) = H * W) by nia.
  destruct (product_of_bounded_factors LH LW HH HW EP) as [EH EW].
  assert (E8 : 8 * (C / 8) = C).
  { assert (0 < H / p0) by nia. assert (0 < W / p1) by nia. nia. }
  repeat split; try assumption;
    apply Nat.Div0.div_exact; symmetry; assumption.
Qed.

(** X4. On a feature map without an empty axis, the reshapes of
    [NeuralSpectralBlock2d.forward] go through exactly when the patch size
    is positive and divides the height and the width, the channel count is
    the width of the block, and that width is a multiple of the 8 heads;
    the returned shape is then the shape of the input. *)
Theorem NeuralSpectralBlock2d_shape_accepts_iff :
  forall (width p0 p1 B C H W : nat),
    0 < B -> 0 < C -> 0 < H -> 0 < W ->
    ((exists s, NeuralSpectralBlock2d_shape width (p0, p1) [B; C; H; W] = Ok s)
     <-> 0 < p0 /\ 0 < p1 /\ H mod p0 = 0 /\ W mod p1 = 0 /\
         C = width /\ C mod 8 = 0) /\
    (forall s, NeuralSpectralBlock2d_shape width (p0, p1) [B; C; H; W] = Ok s ->
               s = [B; C; H; W]).
Proof.
  intros width p0 p1 B C H W HB HC HH HW. split; [split|].
  - intros (s & E).
    apply (@NeuralSpectralBlock2d_shape_needs width p0 p1 B C H W s); assumption.
  - intros (Hp0 & Hp1 & E0 & E1 & EC & E8). eexists.
    apply NeuralSpectralBlock2d_shape_accepts; assumption.
  - intros s E. apply NeuralSpectralBlock2d_shape_inv in E. assumption.
Qed.

Lemma NeuralSpectralBlock2d_shape_accepts_iff_witness :
  ((exists s, NeuralSpectralBlock2d_shape 8 (2, 3) [1; 8; 4; 6] = Ok s)
   <-> 0 < 2 /\ 0 < 3 /\ 4 mod 2 = 0 /\ 6 mod 3 = 0 /\ 8 = 8 /\ 8 mod 8 = 0) /\
  (forall s, NeuralSpectralBlock2d_shape 8 (2, 3) [1; 8; 4; 6] = Ok s ->
             s = [1; 8; 4; 6]).
Proof.
  apply (@NeuralSpectralBlock2d_shape_accepts_iff 8 2 3 1 8 4 6); lia.
Defined.

(** ** Shapes through [LSM_2D.forward] *)

Lemma half_of_double c X : c * 2 * X / 2 = c * X.
Proof. replace (c * 2 * X) with (c * X * 2) by ring. apply Nat.div_mul. lia. Qed.

Lemma half_16 X : 16 * X / 2 = 8 * X.
Proof. apply (half_of_double 8 X). Qed.

Lemma half_8 X : 8 * X / 2 = 4 * X.
Proof. apply (half_of_double 4 X). Qed.

Lemma half_4 X : 4 * X / 2 = 2 * X.
Proof. apply (half_of_double 2 X). Qed.

Lemma half_2 X : 2 * X / 2 = 1 * X.
Proof. apply (half_of_double 1 X). Qed.

Lemma width_16_half w : w * 16 / 2 = w * 8.
Proof. replace (w * 16) with (w * 8 * 2) by ring. apply Nat.div_mul. lia. Qed.

Lemma width_8_half w : w * 8 / 2 = w * 4.
Proof. replace (w * 8) with (w * 4 * 2) by ring. apply Nat.div_mul. lia. Qed.

Lemma width_4_half w : w * 4 / 2 = w * 2.
Proof. replace (w * 4) with (w * 2 * 2) by ring. apply Nat.div_mul. lia. Qed.

Lemma width_2_half w : w * 2 / 2 = w.
Proof. apply Nat.div_mul. lia. Qed.

Lemma multiple_mod_8 w c : w mod 8 = 0 -> (w * c) mod 8 = 0.
Proof.
  intros E. apply Nat.Div0.div_exact in E. rewrite E.
  replace (8 * (w / 8) * c) with (w / 8 * c * 8) by ring.
  apply Nat.Div0.mod_mul.
Qed.

Lemma multiple_mod_patch c p k : (c * (p * k)) mod p = 0.
Proof. replace (c * (p * k)) with (c * k * p) by ring. apply Nat.Div0.mod_mul. Qed.

Lemma pad_dim_right n p : pad_dim n 0 (Z.of_nat p) = Ok (n + p).
Proof.
  unfold pad_dim. destruct (Z.ltb_spec (Z.of_nat n + 0 + Z.of_nat p) 0); [lia|].
  f_equal. lia.
Qed.

(** The encoder-decoder on a map whose extents are 16 times a positive
    multiple of the patch size. *)
Lemma unet_shape_accepts (A : Type) (k : list nat -> result A) w p0 p1 B kh kw :
  w mod 8 = 0 -> 0 < p0 -> 0 < p1 -> 0 < kh -> 0 < kw ->
  let X := p0 * kh in
  let Y := p1 * kw in
  (x1 <- DoubleConv_shape w w None [B; w; 16 * X; 16 * Y] ;;
   x2 <- Down_shape w (w * 2) x1 ;;
   x3 <- Down_shape (w * 2) (w * 4) x2 ;;
   x4 <- Down_shape (w * 4) (w * 8) x3 ;;
   x5 <- Down_shape (w * 8) (w * 16 / 2) x4 ;;
   y5 <- NeuralSpectralBlock2d_shape (w * 16 / 2) (p0, p1) x5 ;;
   y4 <- NeuralSpectralBlock2d_shape (w * 8) (p0, p1) x4 ;;
   x <- Up_shape (w * 16) (w * 8 / 2) y5 y4 ;;
   y3 <- NeuralSpectralBlock2d_shape (w * 4) (p0, p1) x3 ;;
   x <- Up_shape (w * 8) (w * 4 / 2) x y3 ;;
   y2 <- NeuralSpectralBlock2d_shape (w * 2) (p0, p1) x2 ;;
   x <- Up_shape (w * 4) (w * 2 / 2) x y2 ;;
   y1 <- NeuralSpectralBlock2d_shape w (p0, p1) x1 ;;
   x <- Up_shape (w * 2) w x y1 ;;
   x <- OutConv_shape w w x ;;
   k x)
  = k [B; w; 16 * X; 16 * Y].
Proof.
  intros Hw Hp0 Hp1 Hkh Hkw X Y.
  assert (HX : 0 < X) by (unfold X; nia). assert (HY : 0 < Y) by (unfold Y; nia).
  rewrite width_16_half, width_8_half, width_4_half, width_2_half.
  assert (L : forall c n, 0 < c -> 0 < n -> (1 <=? c * n) = true)
    by (intros; apply Nat.leb_le; nia).
  assert (L2 : forall c n, 2 <= c -> 0 < n -> (2 <=? c * n) = true)
    by (intros; apply Nat.leb_le; nia).
  rewrite DoubleConv_shape_value, Nat.eqb_refl, !L by lia. cbn [andb bind].
  rewrite Down_shape_value, Nat.eqb_refl, !L2 by lia. cbn [andb bind].
  rewrite !half_16.
  rewrite Down_shape_value, Nat.eqb_refl, !L2 by lia. cbn [andb bind].
  rewrite !half_8.
  rewrite Down_shape_value, Nat.eqb_refl, !L2 by lia. cbn [andb bind].
  rewrite !half_4.
  rewrite Down_shape_value, Nat.eqb_refl, !L2 by lia. cbn [andb bind].
  rewrite !half_2.
  rewrite !NeuralSpectralBlock2d_shape_accepts;
    try assumption; try reflexivity;
    try (apply multiple_mod_patch); try (apply multiple_mod_8; assumption).
  cbn [bind].
  assert (Ceq : forall a b, a = b -> (a =? b) = true)
    by (intros a b ->; apply Nat.eqb_refl).
  rewrite Up_shape_value, Nat.eqb_refl, (Ceq (w * 8 + w * 8) (w * 16)), !L by lia.
  cbn [andb bind].
  rewrite Up_shape_value, Nat.eqb_refl, (Ceq (w * 4 + w * 4) (w * 8)), !L by lia.
  cbn [andb bind].
  rewrite Up_shape_value, Nat.eqb_refl, (Ceq (w * 2 + w * 2) (w * 4)), !L by lia.
  cbn [andb bind].
  rewrite Up_shape_value, Nat.eqb_refl, (Ceq (w + w) (w * 2)), !L by lia.
  cbn [andb bind].
  unfold OutConv_shape.
  rewrite Conv2d_1x1_shape_value, Nat.eqb_refl, !L by lia. reflexivity.
Qed.

Lemma Linear_shape_ok i o B H W : Linear_shape i o [B; H; W; i] = Ok [B; H; W; o].
Proof. unfold Linear_shape. rewrite Nat.eqb_refl. reflexivity. Qed.

Lemma forward_shape_accepts a B H W p0 p1 kh kw :
  LSM_2D.d_model a mod 8 = 0 ->
  LSM_2D.padding a = [Z.of_nat p0; Z.of_nat p1] ->
  (p0 = 0 /\ p1 = 0) \/ (0 < p0 /\ 0 < p1) ->
  0 < fst (LSM_2D.patch_size a) -> 0 < snd (LSM_2D.patch_size a) ->
  0 < kh -> 0 < kw ->
  H + p1 = 16 * (fst (LSM_2D.patch_size a) * kh) ->
  W + p0 = 16 * (snd (LSM_2D.patch_size a) * kw) ->
  LSM_2D.forward_shape a [B; H; W; LSM_2D.in_dim a] = Ok [B; H; W; LSM_2D.out_dim a].
Proof.
  intros Hw Hpad Hcase Hq0 Hq1 Hkh Hkw EH EW.
  unfold LSM_2D.forward_shape. rewrite Linear_shape_ok. cbn [bind].
  destruct (LSM_2D.patch_size a) as [q0 q1] eqn:Eps. cbn [fst snd] in *.
  unfold LSM_2D.padding_enabled, LSM_2D.padding_at. rewrite Hpad.
  cbn [forallb nth_error bind].
  destruct Hcase as [[-> ->]|[Hp0 Hp1]].
  - cbn [Z.of_nat Z.eqb andb negb bind].
    rewrite Nat.add_0_r in EH, EW. subst H W.
    rewrite unet_shape_accepts by assumption.
    rewrite !Linear_shape_ok. reflexivity.
  - destruct (Z.eqb_spec (Z.of_nat p0) 0) as [F|_]; [lia|]. cbn [andb negb].
    unfold F_pad. rewrite !pad_dim_right. cbn [bind].
    rewrite EH, EW. rewrite unet_shape_accepts by assumption.
    cbn [bind].
    assert (SH : slice_to_neg (16 * (q0 * kh)) (Z.of_nat p1) = H)
      by (apply slice_to_neg_pad; lia).
    assert (SW : slice_to_neg (16 * (q1 * kw)) (Z.of_nat p0) = W)
      by (apply slice_to_neg_pad; lia).
    rewrite SH, SW. rewrite !Linear_shape_ok. reflexivity.
Qed.

Lemma four_halvings n : 2 <= n / 2 / 2 / 2 -> 16 <= n.
Proof.
  intros H.
  pose proof (Nat.Div0.mul_div_le n 2).
  pose proof (Nat.Div0.mul_div_le (n / 2) 2).
  pose proof (Nat.Div0.mul_div_le (n / 2 / 2) 2).
  lia.
Qed.

Lemma Down_shape_ok_inv i o B C H W s :
  Down_shape i o [B; C; H; W] = Ok s ->
  2 <= H /\ 2 <= W /\ C = i /\ s = [B; o; H / 2; W / 2].
Proof.
  rewrite Down_shape_value.
  destruct (Nat.leb_spec 2 H), (Nat.leb_spec 2 W), (Nat.eqb_spec C i);
    cbn [andb]; try discriminate.
  intros [= <-]. repeat split; assumption.
Qed.

(** The stem and the four [Down] stages go through only on a map of the
    working width with at least 16 points along each spatial axis. *)
Lemma encoder_needs_16 w x x1 x2 x3 x4 x5 :
  DoubleConv_shape w w None x = Ok x1 ->
  Down_shape w (w * 2) x1 = Ok x2 ->
  Down_shape (w * 2) (w * 4) x2 = Ok x3 ->
  Down_shape (w * 4) (w * 8) x3 = Ok x4 ->
  Down_shape (w * 8) (w * 16 / 2) x4 = Ok x5 ->
  exists B H W, x = [B; w; H; W] /\ 16 <= H /\ 16 <= W.
Proof.
  intros Hinc Hd1 Hd2 Hd3 Hd4.
  pose proof Hinc as Hinc'.
  apply DoubleConv_shape_inv in Hinc' as (B & C & H & W & -> & ->).
  rewrite DoubleConv_shape_value in Hinc.
  destruct (Nat.eqb_spec C w) as [->|]; [|discriminate Hinc]. clear Hinc.
  apply Down_shape_ok_inv in Hd1 as (_ & _ & _ & ->).
  apply Down_shape_ok_inv in Hd2 as (_ & _ & _ & ->).
  apply Down_shape_ok_inv in Hd3 as (_ & _ & _ & ->).
  apply Down_shape_ok_inv in Hd4 as (LH & LW & _ & _).
  exists B, H, W. split; [reflexivity|]. split; apply four_halvings; assumption.
Qed.

Lemma forward_shape_needs a B H W C s :
  LSM_2D.forward_shape a [B; H; W; C] = Ok s ->
  C = LSM_2D.in_dim a /\
  (LSM_2D.padding_enabled a = false -> 16 <= H /\ 16 <= W) /\
  (forall p0 p1 more,
     LSM_2D.padding_enabled a = true -> LSM_2D.padding a = p0 :: p1 :: more ->
     (16 <= Z.of_nat H + p1)%Z /\ (16 <= Z.of_nat W + p0)%Z).
Proof.
  intros Hf. unfold LSM_2D.forward_shape in Hf.
  inv_bind_as Hf x0 Efc0.
  assert (EC : C = LSM_2D.in_dim a).
  { unfold Linear_shape in Efc0.
    destruct (Nat.eqb_spec (C + 2) (LSM_2D.in_dim a + 2)); [lia | discriminate]. }
  apply Linear_shape_inv in Efc0 as (B' & H' & W' & C' & [= <- <- <- <-] & ->).
  inv_bind_as Hf xp Epad.
  inv_bind_as Hf x1 Einc. inv_bind_as Hf x2 Ed1. inv_bind_as Hf x3 Ed2.
  inv_bind_as Hf x4 Ed3. inv_bind_as Hf x5 Ed4. clear Hf.
  destruct encoder_needs_16
    with (1 := Einc) (2 := Ed1) (3 := Ed2) (4 := Ed3) (5 := Ed4)
    as (Bp & Hp & Wp & -> & LH & LW).
  clear Einc Ed1 Ed2 Ed3 Ed4.
  split; [exact EC|]. split.
  - intros En. rewrite En in Epad. injection Epad as <- <- <-. split; assumption.
  - intros p0 p1 more En Ep. rewrite En in Epad.
    unfold LSM_2D.padding_at in Epad. rewrite Ep in Epad.
    cbn [nth_error bind] in Epad. unfold F_pad in Epad.
    inv_bind_as Epad Wn EW. inv_bind_as Epad Hn EH.
    injection Epad as <- <- <-.
    apply pad_dim_inv in EW as (_ & EW). apply pad_dim_inv in EH as (_ & EH).
    lia.
Qed.

(** X5. Whatever [LSM_2D.forward] accepts, with both padding amounts
    positive or with no padding at all, comes back with the batch size and
    the spatial extent of the input and with [out_dim] channels: the crop
    takes away what the padding added. *)
Theorem forward_restores_extent :
  forall (a : LSM_2D.args) (B H W C : nat) (s : list nat),
    (LSM_2D.padding_enabled a = true ->
     exists p0 p1 more,
       LSM_2D.padding a = p0 :: p1 :: more /\ (0 < p0)%Z /\ (0 < p1)%Z) ->
    LSM_2D.forward_shape a [B; H; W; C] = Ok s ->
    s = [B; H; W; LSM_2D.out_dim a].
Proof. intros a B H W C s Hpad Hf. eapply forward_shape_keeps_extent; eassumption. Qed.

Lemma forward_restores_extent_witness :
  [2; 14; 14; 1]
  = [2; 14; 14; LSM_2D.out_dim (LSM_2D.mk_args 1 1 8 4 12 (1, 1) [2; 2]%Z)].
Proof.
  apply (@forward_restores_extent
           (LSM_2D.mk_args 1 1 8 4 12 (1, 1) [2; 2]%Z) 2 14 14 1 [2; 14; 14; 1]).
  - intros _. exists 2%Z, 2%Z, []. repeat split; reflexivity.
  - vm_compute. reflexivity.
Defined.

(** X6. For a model that [__init__] can build (positive [d_model],
    [num_basis] and [num_token]) and a batch of at least two fields (so
    that [BatchNorm2d] sees more than one value per channel also in
    training mode): [LSM_2D.forward] accepts every input of [in_dim]
    channels and positive height and width whose padded height and width
    are 16 times a positive multiple of the patch size, for a working width
    that is a multiple of the 8 heads and a padding that is 0,0 or positive
    in both places; the result has the shape (B, H, W, out_dim). *)
Theorem forward_accepts_multiples_of_16_patches :
  forall (a : LSM_2D.args) (B H W p0 p1 kh kw : nat),
    0 < LSM_2D.d_model a -> 0 < LSM_2D.num_basis a -> 0 < LSM_2D.num_token a ->
    1 < B -> 0 < H -> 0 < W ->
    LSM_2D.d_model a mod 8 = 0 ->
    LSM_2D.padding a = [Z.of_nat p0; Z.of_nat p1] ->
    (p0 = 0 /\ p1 = 0) \/ (0 < p0 /\ 0 < p1) ->
    0 < fst (LSM_2D.patch_size a) -> 0 < snd (LSM_2D.patch_size a) ->
    0 < kh -> 0 < kw ->
    H + p1 = 16 * (fst (LSM_2D.patch_size a) * kh) ->
    W + p0 = 16 * (snd (LSM_2D.patch_size a) * kw) ->
    LSM_2D.forward_shape a [B; H; W; LSM_2D.in_dim a]
    = Ok [B; H; W; LSM_2D.out_dim a].
Proof. intros a B H W p0 p1 kh kw _ _ _ _ _ _. apply forward_shape_accepts. Qed.

(** The model of the script on a batch of 20 fields of 85x85 points. *)
Lemma forward_accepts_multiples_of_16_patches_witness :
  LSM_2D.forward_shape (LSM_2D.mk_args 1 1 64 4 12 (6, 6) [11; 11]%Z)
    [20; 85; 85; LSM_2D.in_dim (LSM_2D.mk_args 1 1 64 4 12 (6, 6) [11; 11]%Z)]
  = Ok [20; 85; 85; LSM_2D.out_dim (LSM_2D.mk_args 1 1 64 4 12 (6, 6) [11; 11]%Z)].
Proof.
  apply (@forward_accepts_multiples_of_16_patches
           (LSM_2D.mk_args 1 1 64 4 12 (6, 6) [11; 11]%Z) 20 85 85 11 11 1 1);
    try reflexivity; simpl; lia.
Defined.

(** X7. [LSM_2D.forward] returns only for inputs of exactly [in_dim]
    channels whose height and width, after the padding, are at least 16:
    anything smaller is used up by the four poolings. *)
Theorem forward_rejects_small_or_mismatched :
  forall (a : LSM_2D.args) (B H W C : nat) (s : list nat),
    LSM_2D.forward_shape a [B; H; W; C] = Ok s ->
    C = LSM_2D.in_dim a /\
    (LSM_2D.padding_enabled a = false -> 16 <= H /\ 16 <= W) /\
    (forall p0 p1 more,
       LSM_2D.padding_enabled a = true -> LSM_2D.padding a = p0 :: p1 :: more ->
       (16 <= Z.of_nat H + p1)%Z /\ (16 <= Z.of_nat W + p0)%Z).
Proof. intros a B H W C s Hf. eapply forward_shape_needs; eassumption. Qed.

Lemma forward_rejects_small_or_mismatched_witness :
  1 = LSM_2D.in_dim (LSM_2D.mk_args 1 1 8 4 12 (1, 1) [2; 2]%Z) /\
  (LSM_2D.padding_enabled (LSM_2D.mk_args 1 1 8 4 12 (1, 1) [2; 2]%Z) = false ->
   16 <= 14 /\ 16 <= 14) /\
  (forall p0 p1 more,
     LSM_2D.padding_enabled (LSM_2D.mk_args 1 1 8 4 12 (1, 1) [2; 2]%Z) = true ->
     LSM_2D.padding (LSM_2D.mk_args 1 1 8 4 12 (1, 1) [2; 2]%Z) = p0 :: p1 :: more ->
     (16 <= Z.of_nat 14 + p1)%Z /\ (16 <= Z.of_nat 14 + p0)%Z).
Proof.
  apply (@forward_rejects_small_or_mismatched
           (LSM_2D.mk_args 1 1 8 4 12 (1, 1) [2; 2]%Z) 2 14 14 1 [2; 14; 14; 1]).
  vm_compute. reflexivity.
Defined.

(** ** Further properties of the losses *)

(** X8. [abs] cannot be used on a field without a second axis, where
    [x.size()[1]] is an index error, nor on a field whose second axis has a
    single point, where the mesh width [1.0 / (x.size()[1] - 1.0)] divides
    by zero: it raises whatever the values and whatever [y]. *)
Theorem abs_raises_on_degenerate_mesh :
  forall (self : LpLoss.t) (x y : tensor),
    (length (shape x) < 2 -> LpLoss.abs self x y = Raises IndexError) /\
    (forall n rest, shape x = n :: 1 :: rest ->
                    LpLoss.abs self x y = Raises ZeroDivisionError).
Proof.
  intros self x y. split.
  - intros Hl. unfold LpLoss.abs.
    destruct (shape x) as [|n [|n1 rest]]; cbn [length] in Hl; try reflexivity; lia.
  - intros n rest Hs. unfold LpLoss.abs. rewrite Hs. unfold float_div.
    destruct (Req_dec_T (INR 1 - 1) 0) as [_|N]; [reflexivity|].
    exfalso. apply N. simpl. ring.
Qed.

Lemma vnorm_opp p v : vnorm p (map Ropp v) = vnorm p v.
Proof.
  unfold vnorm. rewrite map_map. do 2 f_equal.
  apply map_ext. intros a. rewrite Rabs_Ropp. reflexivity.
Qed.

Lemma tabulate_opp s g :
  data (tabulate s (fun idx => (- g idx)%R)) = map Ropp (data (tabulate s g)).
Proof. unfold tabulate. cbn [data]. rewrite map_map. reflexivity. Qed.

Lemma abs_symmetric self x y :
  shape y = shape x -> LpLoss.abs self x y = LpLoss.abs self y x.
Proof.
  intros Sy. unfold LpLoss.abs. rewrite Sy.
  remember (shape x) as s eqn:Sx. symmetry in Sx.
  destruct s as [|n [|n1 rest]]; try reflexivity.
  destruct (float_div 1 (INR n1 - 1)) as [h| | |]; try reflexivity. cbn [bind].
  destruct (float_pow h (LpLoss.d self / LpLoss.p self)) as [c| | |];
    try reflexivity. cbn [bind].
  destruct (Nat.eq_dec n 0) as [->|Hn].
  - reflexivity.
  - rewrite (reshape_rows_ok x Sx) by lia.
    rewrite (reshape_rows_ok y Sy) by lia. cbn [bind].
    rewrite Sy, <- Sx.
    set (m := numel (shape x) / n).
    set (xr := mkTensor [n; m] (data x)). set (yr := mkTensor [n; m] (data y)).
    rewrite (@bop_same_shape Rminus xr yr), (@bop_same_shape Rminus yr xr)
      by reflexivity.
    cbn [bind]. change (shape xr) with [n; m]. change (shape yr) with [n; m].
    unfold norm_dim1. rewrite !shape_tabulate. cbn [bind].
    do 4 f_equal.
    rewrite (@tabulate_ext [n; m] (fun idx => (get yr idx - get xr idx)%R)
               (fun idx => (- (get xr idx - get yr idx))%R))
      by (intros; ring).
    rewrite tabulate_opp, rows_map, map_map.
    apply map_ext. intros v. symmetry. apply vnorm_opp.
Qed.

(** X9. [abs] is symmetric: on two fields of one shape, [abs(x, y)] and
    [abs(y, x)] return the same number, or fail alike. *)
Theorem abs_is_symmetric :
  forall (self : LpLoss.t) (x y : tensor),
    shape y = shape x -> LpLoss.abs self x y = LpLoss.abs self y x.
Proof. intros self x y. apply abs_symmetric. Qed.

Lemma abs_is_symmetric_witness :
  LpLoss.abs (LpLoss.mk 2 2) (mkTensor [1; 2] [1; 2]%R) (mkTensor [1; 2] [1; 5]%R)
  = LpLoss.abs (LpLoss.mk 2 2) (mkTensor [1; 2] [1; 5]%R) (mkTensor [1; 2] [1; 2]%R).
Proof.
  apply (@abs_is_symmetric (LpLoss.mk 2 2)
           (mkTensor [1; 2] [1; 2]%R) (mkTensor [1; 2] [1; 5]%R)).
  reflexivity.
Defined.

(** X10. In float32, as the code computes it with the norm order 2, [rel]
    of a finite field against itself is 0.0 whenever the norm of each of
    its samples is a finite number above zero. *)
Theorem rel_of_field_against_itself_is_zero :
  forall (x : ftensor) (n : nat) (rest : list nat),
    fwf x -> fshape x = n :: rest -> 0 < n ->
    Forall (fun v => F32.finite v = true) (fdata x) ->
    Forall (fun v => F32.positive v = true) (LpLoss32.sample_norms x) ->
    LpLoss32.rel (LpLoss32.mk 2 2) x x = Ok (S754_zero false).
Proof. intros x n rest. apply rel32_self. Qed.

Lemma rel_of_field_against_itself_is_zero_witness :
  LpLoss32.rel (LpLoss32.mk 2 2) example_threes32 example_threes32
  = Ok (S754_zero false).
Proof.
  apply (@rel_of_field_against_itself_is_zero example_threes32 1 [2]);
    [reflexivity | reflexivity | lia | repeat constructor
    | vm_compute; repeat constructor].
Defined.

(** ** Encoding the training data *)






(** ** The training loop over the loader *)

Lemma train_epoch_full_batches a batch_size s1 s2 batches :
  LSM_2D.forward_shape a [batch_size; s1; s2; 1] = Ok [batch_size; s1; s2; 1] ->
  Forall (fun b => length b = batch_size) batches ->
  train_epoch a batch_size s1 s2 batches = Ok (length batches).
Proof.
  intros Hacc F. induction F as [|b batches Hb F IH]; cbn [train_epoch length].
  - reflexivity.
  - rewrite Hb, Hacc. cbn [bind].
    rewrite view_shape_ok by (cbn [numel fold_right]; ring). cbn [bind].
    rewrite IH. reflexivity.
Qed.

Lemma loader_batches_full_iff ntrain bs loader sampler :
  DataLoader.init ntrain bs true = Ok loader ->
  length sampler = ntrain ->
  (Forall (fun b => length b = bs) (DataLoader.batches loader sampler)
   <-> ntrain mod bs = 0) /\
  (ntrain mod bs = 0 -> length (DataLoader.batches loader sampler) = ntrain / bs).
Proof.
  intros Hinit Hlen. unfold DataLoader.init in Hinit.
  destruct (Nat.eqb_spec bs 0) as [|Hbs]; [discriminate|].
  injection Hinit as <-. unfold DataLoader.batches.
  cbn [DataLoader.batch_size DataLoader.drop_last].
  pose proof (@batch_sampler_lengths bs sampler [] ltac:(cbn; lia)) as HL.
  cbn [length Nat.add] in HL. rewrite Hlen in HL.
  assert (Hm : ntrain mod bs < bs) by (apply Nat.mod_upper_bound; assumption).
  split.
  - rewrite <- Forall_map with (f := @length nat) (P := fun k => k = bs).
    rewrite HL, Forall_app. split.
    + intros [_ F]. destruct (Nat.eqb_spec (ntrain mod bs) 0) as [E|N]; [assumption|].
      inversion F; subst. lia.
    + intros E. rewrite E. cbn. split; [|constructor].
      apply Forall_forall. intros k Hk. apply repeat_spec in Hk. assumption.
  - intros E. rewrite <- (length_map (@length nat)), HL, E. cbn.
    rewrite app_nil_r, repeat_length. reflexivity.
Qed.

(** X13. One pass of the training loop of [main] over the training loader
    completes exactly when the batch size divides the number of training
    samples, and then performs [ntrain / batch_size] optimizer steps;
    otherwise the pass raises on the trailing batch, inside the model or at
    the reshape of its output to [batch_size].  (For a model that
    [__init__] can build and that accepts a full batch, a batch size of at
    least two, so that [BatchNorm2d] in training mode sees more than one
    value per channel on a full batch, fields of at least one point, one
    output channel, and a padding that is 0,0 or positive in both
    places.) *)
Theorem train_pass_completes_iff_divisible :
  forall (a : LSM_2D.args) (ntrain batch_size s1 s2 : nat)
         (loader : DataLoader.t) (sampler : list nat) (steps : nat),
    0 < LSM_2D.d_model a -> 0 < LSM_2D.num_basis a -> 0 < LSM_2D.num_token a ->
    1 < batch_size -> 0 < ntrain ->
    DataLoader.init ntrain batch_size true = Ok loader ->
    length sampler = ntrain ->
    LSM_2D.out_dim a = 1 -> 0 < s1 * s2 ->
    (LSM_2D.padding_enabled a = true ->
     exists p0 p1 more,
       LSM_2D.padding a = p0 :: p1 :: more /\ (0 < p0)%Z /\ (0 < p1)%Z) ->
    LSM_2D.forward_shape a [batch_size; s1; s2; 1] = Ok [batch_size; s1; s2; 1] ->
    (train_epoch a batch_size s1 s2 (DataLoader.batches loader sampler) = Ok steps
     <-> ntrain mod batch_size = 0 /\ steps = ntrain / batch_size).
Proof.
  intros a ntrain bs s1 s2 loader sampler steps _ _ _ _ _ Hinit Hlen Hout Hs Hpad Hacc.
  destruct (@loader_batches_full_iff ntrain bs loader sampler Hinit Hlen)
    as [Hfull Hcount].
  split.
  - intros Hrun.
    destruct (@train_epoch_needs_full_batches a bs s1 s2 _ steps Hout Hs Hpad Hrun)
      as [F ->].
    apply Hfull in F. split; [assumption | apply Hcount; assumption].
  - intros [E ->]. rewrite <- (Hcount E).
    apply train_epoch_full_batches; [assumption | apply Hfull; assumption].
Qed.

Lemma train_pass_completes_iff_divisible_witness :
  exists loader,
    DataLoader.init 4 2 true = Ok loader /\
    (train_epoch (LSM_2D.mk_args 1 1 8 4 12 (1, 1) [2; 2]%Z) 2 14 14
       (DataLoader.batches loader [3; 0; 1; 2]) = Ok 2
     <-> 4 mod 2 = 0 /\ 2 = 4 / 2).
Proof.
  eexists. split; [reflexivity|].
  apply (@train_pass_completes_iff_divisible
           (LSM_2D.mk_args 1 1 8 4 12 (1, 1) [2; 2]%Z) 4 2 14 14 _ [3; 0; 1; 2] 2).
  - simpl. lia.
  - simpl. lia.
  - simpl. lia.
  - lia.
  - lia.
  - reflexivity.
  - reflexivity.
  - reflexivity.
  - simpl. lia.
  - intros _. exists 2%Z, 2%Z, []. repeat split; reflexivity.
  - vm_compute. reflexivity.
Defined.

(** ** What a patch holds *)

Lemma patchify_entries self x B C H W :
  let p0 := fst (NeuralSpectralBlock2d.patch_size self) in
  let p1 := snd (NeuralSpectralBlock2d.patch_size self) in
  shape x = [B; C; H; W] -> 0 < p0 -> 0 < p1 -> H mod p0 = 0 -> W mod p1 = 0 ->
  exists t,
    NeuralSpectralBlock2d.patchify self x = Ok t /\
    shape t = [B * (H / p0) * (W / p1); C; p0; p1] /\
    forall b i j c u v,
      b < B -> i < H / p0 -> j < W / p1 -> c < C -> u < p0 -> v < p1 ->
      get t [(b * (H / p0) + i) * (W / p1) + j; c; u; v]
      = get x [b; c; i * p0 + u; j * p1 + v].
Proof.
  destruct x as [s d]. intros p0 p1 Hs Hp0 Hp1 HH HW.
  cbn [shape] in Hs. subst s.
  assert (EH : p0 * (H / p0) = H) by (symmetry; apply Nat.Div0.div_exact; assumption).
  assert (EW : p1 * (W / p1) = W) by (symmetry; apply Nat.Div0.div_exact; assumption).
  set (hp := H / p0) in *. set (wp := W / p1) in *.
  assert (N1 : numel [B; C; hp; p0; wp; p1] = numel [B; C; H; W])
    by (cbn [numel fold_right]; rewrite <- EH, <- EW; ring).
  assert (N2 : numel [B * hp * wp; C; p0; p1] = numel [B; hp; wp; C; p0; p1])
    by (cbn [numel fold_right]; ring).
  unfold NeuralSpectralBlock2d.patchify. cbn [shape]. fold p0 p1.
  rewrite !floordiv_ok by assumption. fold hp wp. cbn [bind].
  rewrite (view_ok (mkTensor [B; C; H; W] d)) by exact N1. cbn [bind data].
  rewrite view_ok by exact N2.
  eexists. split; [reflexivity|]. split; [reflexivity|].
  intros b i j c u v Hb Hi Hj Hc Hu Hv.
  set (x1 := mkTensor [B; C; hp; p0; wp; p1] d).
  transitivity (get (permute [0; 2; 4; 1; 3; 5] x1) [b; i; j; c; u; v]).
  - unfold get. cbn [shape data]. f_equal.
    unfold permute. rewrite shape_tabulate.
    cbn [shape x1 map nth ravel numel fold_right]. ring.
  - unfold permute. rewrite get_tabulate
      by (cbn [shape x1 map nth]; apply in_bounds6_intro; assumption).
    cbn [unpermute length seq map index_of Nat.eqb nth].
    unfold get. cbn [shape data x1]. f_equal.
    cbn [ravel numel fold_right]. rewrite <- EH, <- EW. fold hp wp. ring.
Qed.

(** X14. Patchify cuts the map into tiles: entry (c, u, v) of the pseudo-batch
    element numbered [(b * (H / p0) + i) * (W / p1) + j] is the entry of
    channel [c] of sample [b] at row [i * p0 + u] and column [j * p1 + v],
    so that element holds the patch in row [i] and column [j] of the patch
    grid of sample [b]. *)
Theorem patchify_holds_spatial_tiles :
  forall (self : NeuralSpectralBlock2d.t) (x : tensor) (B C H W : nat),
    let p0 := fst (NeuralSpectralBlock2d.patch_size self) in
    let p1 := snd (NeuralSpectralBlock2d.patch_size self) in
    shape x = [B; C; H; W] -> 0 < p0 -> 0 < p1 -> H mod p0 = 0 -> W mod p1 = 0 ->
    exists t,
      NeuralSpectralBlock2d.patchify self x = Ok t /\
      shape t = [B * (H / p0) * (W / p1); C; p0; p1] /\
      forall b i j c u v,
        b < B -> i < H / p0 -> j < W / p1 -> c < C -> u < p0 -> v < p1 ->
        get t [(b * (H / p0) + i) * (W / p1) + j; c; u; v]
        = get x [b; c; i * p0 + u; j * p1 + v].
Proof. intros self x B C H W. apply patchify_entries. Qed.

Lemma patchify_holds_spatial_tiles_witness :
  exists t,
    NeuralSpectralBlock2d.patchify example_block
      (mkTensor [1; 1; 4; 4]
         [1; 2; 3; 4; 5; 6; 7; 8; 9; 10; 11; 12; 13; 14; 15; 16]%R) = Ok t /\
    shape t = [1 * (4 / 2) * (4 / 2); 1; 2; 2] /\
    forall b i j c u v,
      b < 1 -> i < 4 / 2 -> j < 4 / 2 -> c < 1 -> u < 2 -> v < 2 ->
      get t [(b * (4 / 2) + i) * (4 / 2) + j; c; u; v]
      = get (mkTensor [1; 1; 4; 4]
               [1; 2; 3; 4; 5; 6; 7; 8; 9; 10; 11; 12; 13; 14; 15; 16]%R)
            [b; c; i * 2 + u; j * 2 + v].
Proof.
  apply (@patchify_holds_spatial_tiles example_block
           (mkTensor [1; 1; 4; 4]
              [1; 2; 3; 4; 5; 6; 7; 8; 9; 10; 11; 12; 13; 14; 15; 16]%R) 1 1 4 4);
    try reflexivity; simpl; lia.
Defined.

(** ** The range of the basis features *)

Lemma get_basis_on_unit_circle width num_basis patch_size num_token self x B C N :
  NeuralSpectralBlock2d.init width num_basis patch_size num_token = Ok self ->
  shape x = [B; C; N] ->
  exists y,
    NeuralSpectralBlock2d.get_basis self x = Ok y /\
    (forall b c n m, b < B -> c < C -> n < N -> m < num_basis ->
       (Rsqr (get y [b; c; n; m]) + Rsqr (get y [b; c; n; (num_basis + m)%nat]) = 1)%R) /\
    (forall b c n j, b < B -> c < C -> n < N -> j < num_basis + num_basis ->
       (-1 <= get y [b; c; n; j] <= 1)%R).
Proof.
  intros Hinit Hs.
  destruct (@get_basis_entries _ _ _ _ _ _ _ _ _ Hinit Hs) as (y & Hy & _ & Hent).
  exists y. split; [assumption|]. split.
  - intros b c n m Hb Hc Hn Hm.
    destruct (Hent b c n m Hb Hc Hn Hm) as [-> ->]. apply sin2_cos2.
  - intros b c n j Hb Hc Hn Hj.
    destruct (Nat.lt_ge_cases j num_basis) as [Hlt|Hge].
    + destruct (Hent b c n j Hb Hc Hn Hlt) as [-> _]. apply SIN_bound.
    + assert (Hm : j - num_basis < num_basis) by lia.
      destruct (Hent b c n (j - num_basis) Hb Hc Hn Hm) as [_ E].
      replace (num_basis + (j - num_basis)) with j in E by lia.
      rewrite E. apply COS_bound.
Qed.

(** X15. Whatever the size of the token values, every feature returned by
    [get_basis] lies in [-1, 1], and the feature [m] and the feature
    [num_basis + m] of one token are a point of the unit circle: their
    squares sum to 1. *)
Theorem get_basis_features_on_unit_circle :
  forall (width num_basis : nat) (patch_size : nat * nat) (num_token : nat)
         (self : NeuralSpectralBlock2d.t) (x : tensor) (B C N : nat),
    NeuralSpectralBlock2d.init width num_basis patch_size num_token = Ok self ->
    shape x = [B; C; N] ->
    exists y,
      NeuralSpectralBlock2d.get_basis self x = Ok y /\
      (forall b c n m, b < B -> c < C -> n < N -> m < num_basis ->
         (Rsqr (get y [b; c; n; m]) + Rsqr (get y [b; c; n; (num_basis + m)%nat]) = 1)%R) /\
      (forall b c n j, b < B -> c < C -> n < N -> j < num_basis + num_basis ->
         (-1 <= get y [b; c; n; j] <= 1)%R).
Proof. intros. eapply get_basis_on_unit_circle; eassumption. Qed.

Lemma get_basis_features_on_unit_circle_witness :
  exists y,
    NeuralSpectralBlock2d.get_basis example_block
      (mkTensor [1; 1; 2] [3; -7]%R) = Ok y /\
    (forall b c n m, b < 1 -> c < 1 -> n < 2 -> m < 2 ->
       (Rsqr (get y [b; c; n; m]) + Rsqr (get y [b; c; n; (2 + m)%nat]) = 1)%R) /\
    (forall b c n j, b < 1 -> c < 1 -> n < 2 -> j < 2 + 2 ->
       (-1 <= get y [b; c; n; j] <= 1)%R).
Proof.
  apply (@get_basis_features_on_unit_circle 8 2 (2, 2) 4 example_block
           (mkTensor [1; 1; 2] [3; -7]%R) 1 1 2); reflexivity.
Defined.

(** ** Attention as a weighted mean *)

Lemma rsum_weighted_bounds w f lo hi n :
  (forall s, s < n -> (0 <= w s)%R) ->
  (forall s, s < n -> (lo <= f s <= hi)%R) ->
  (lo * rsum w n <= rsum (fun s => w s * f s) n <= hi * rsum w n)%R.
Proof.
  induction n as [|n IH]; intros Hw Hf.
  - unfold rsum; simpl; lra.
  - rewrite !rsum_S.
    assert (IH' : (lo * rsum w n <= rsum (fun s => w s * f s) n <= hi * rsum w n)%R)
      by (apply IH; intros s Hs; [apply Hw | apply Hf]; lia).
    pose proof (Hw n (Nat.lt_succ_diag_r n)) as Hwn.
    pose proof (Hf n (Nat.lt_succ_diag_r n)) as Hfn.
    split; nra.
Qed.

Lemma softmax_weights_sum d K :
  0 < K -> rsum (fun s => (exp (d s) / rsum (fun j => exp (d j)) K)%R) K = 1%R.
Proof.
  intros HK. rewrite rsum_div.
  pose proof (rsum_exp_pos d HK) as Hpos. field. lra.
Qed.

Lemma self_attn_weighted_mean self q k v B H L K C D :
  shape q = [B; H; L; C] -> shape k = [B; H; K; C] -> shape v = [B; H; K; D] ->
  0 < K ->
  exists o,
    NeuralSpectralBlock2d.self_attn self q k v = Ok o /\
    shape o = [B; H; L; D] /\
    forall b h l c lo hi, b < B -> h < H -> l < L -> c < D ->
      (forall s, s < K -> (lo <= get v [b; h; s; c] <= hi)%R) ->
      (lo <= get o [b; h; l; c] <= hi)%R.
Proof.
  intros Hq Hk Hv HK.
  destruct (attn_weights_entries self q k Hq Hk) as (a & Ha & Hsa & Hent).
  unfold NeuralSpectralBlock2d.self_attn. rewrite Ha. cbn [bind].
  unfold einsum_bhls_bhsc. rewrite Hsa, Hv, !Nat.eqb_refl. cbn [andb].
  eexists. split; [reflexivity|]. split; [reflexivity|].
  intros b h l c lo hi Hb Hh Hl Hc Hrange.
  rewrite get_tabulate by (apply in_bounds4_intro; assumption).
  set (d := fun s => qk_dot q k C b h l s).
  set (T := rsum (fun j => exp (d j)) K).
  assert (HT : (0 < T)%R) by (apply rsum_exp_pos; assumption).
  rewrite (@rsum_ext _ (fun s => (exp (d s) / T * get v [b; h; s; c])%R))
    by (intros s Hs; rewrite (Hent b h l s Hb Hh Hl Hs); reflexivity).
  pose proof (@rsum_weighted_bounds (fun s => (exp (d s) / T)%R)
                (fun s => get v [b; h; s; c]) lo hi K) as Hbnd.
  cbv beta in Hbnd.
  assert (Hsum : rsum (fun s => (exp (d s) / T)%R) K = 1%R)
    by (apply softmax_weights_sum; assumption).
  rewrite Hsum in Hbnd.
  assert (Hw : forall s, s < K -> (0 <= exp (d s) / T)%R).
  { intros s _. pose proof (exp_pos (d s)).
    apply Rlt_le, Rdiv_lt_0_compat; assumption. }
  specialize (Hbnd Hw Hrange). lra.
Qed.

(** X16. The output of [self_attn] is a weighted mean of the values: for
    at least one key, each output entry of a query lies between any lower
    and upper bound that holds for the value entries of the same batch
    element, head and channel over all keys, whatever the queries and keys
    are. *)
Theorem self_attn_output_within_values :
  forall (self : NeuralSpectralBlock2d.t) (q k v : tensor) (B H L K C D : nat),
    shape q = [B; H; L; C] -> shape k = [B; H; K; C] -> shape v = [B; H; K; D] ->
    0 < K ->
    exists o,
      NeuralSpectralBlock2d.self_attn self q k v = Ok o /\
      shape o = [B; H; L; D] /\
      forall b h l c lo hi, b < B -> h < H -> l < L -> c < D ->
        (forall s, s < K -> (lo <= get v [b; h; s; c] <= hi)%R) ->
        (lo <= get o [b; h; l; c] <= hi)%R.
Proof. intros. eapply self_attn_weighted_mean; eassumption. Qed.

Lemma self_attn_output_within_values_witness :
  exists o,
    NeuralSpectralBlock2d.self_attn example_block example_q example_k example_k = Ok o /\
    shape o = [1; 1; 1; 4] /\
    forall b h l c lo hi, b < 1 -> h < 1 -> l < 1 -> c < 4 ->
      (forall s, s < 2 -> (lo <= get example_k [b; h; s; c] <= hi)%R) ->
      (lo <= get o [b; h; l; c] <= hi)%R.
Proof.
  apply (@self_attn_output_within_values example_block example_q example_k example_k
           1 1 1 2 4 4); try reflexivity. lia.
Defined.

(** ** The transition step *)

Lemma rsum_abs_le f g n :
  (forall m, m < n -> (Rabs (f m) <= g m)%R) -> (Rabs (rsum f n) <= rsum g n)%R.
Proof.
  induction n as [|n IH]; intros H.
  - unfold rsum; simpl. rewrite Rabs_R0. lra.
  - rewrite !rsum_S.
    assert (IH' : (Rabs (rsum f n) <= rsum g n)%R)
      by (apply IH; intros m Hm; apply H; lia).
    pose proof (H n (Nat.lt_succ_diag_r n)) as Hn.
    pose proof (Rabs_triang (rsum f n) (f n)). lra.
Qed.

Lemma get_basis_range width num_basis patch_size num_token self x B C N :
  NeuralSpectralBlock2d.init width num_basis patch_size num_token = Ok self ->
  shape x = [B; C; N] ->
  exists y,
    NeuralSpectralBlock2d.get_basis self x = Ok y /\
    shape y = [B; C; N; num_basis + num_basis] /\
    forall b c n j, b < B -> c < C -> n < N -> j < num_basis + num_basis ->
      (Rabs (get y [b; c; n; j]) <= 1)%R.
Proof.
  intros Hinit Hs.
  destruct (@get_basis_entries _ _ _ _ _ _ _ _ _ Hinit Hs) as (y & Hy & Sy & Hent).
  exists y. split; [assumption|]. split; [assumption|].
  intros b c n j Hb Hc Hn Hj. apply Rabs_le.
  destruct (Nat.lt_ge_cases j num_basis) as [Hlt|Hge].
  - destruct (Hent b c n j Hb Hc Hn Hlt) as [-> _]. apply SIN_bound.
  - assert (Hm : j - num_basis < num_basis) by lia.
    destruct (Hent b c n (j - num_basis) Hb Hc Hn Hm) as [_ E].
    replace (num_basis + (j - num_basis)) with j in E by lia.
    rewrite E. apply COS_bound.
Qed.

Lemma transition_term_bounded width num_basis patch_size num_token self weights latent B C N :
  NeuralSpectralBlock2d.init width num_basis patch_size num_token = Ok self ->
  shape latent = [B; C; N] ->
  shape weights = [C; num_basis * 2] ->
  exists y s,
    NeuralSpectralBlock2d.get_basis self latent = Ok y /\
    compl_mul2d y weights = Ok s /\
    shape s = [B; C; N] /\
    transition self weights latent = bop Rplus s latent /\
    forall b c n, b < B -> c < C -> n < N ->
      (Rabs (get s [b; c; n])
       <= rsum (fun m => Rabs (get weights [c; m])) (num_basis * 2))%R.
Proof.
  intros Hinit Hs Hw.
  replace (num_basis * 2) with (num_basis + num_basis) in * by lia.
  destruct (@get_basis_range _ _ _ _ _ _ _ _ _ Hinit Hs) as (y & Hy & Sy & Hrange).
  exists y. unfold transition. rewrite Hy. cbn [bind].
  unfold compl_mul2d. rewrite Sy, Hw, !Nat.eqb_refl. cbn [andb bind].
  eexists. split; [reflexivity|]. split; [reflexivity|].
  split; [reflexivity|]. split; [reflexivity|].
  intros b c n Hb Hc Hn.
  assert (Hin : in_bounds [B; C; N] [b; c; n]) by (repeat constructor; assumption).
  rewrite get_tabulate by exact Hin.
  apply rsum_abs_le. intros m Hm. rewrite Rabs_mult.
  pose proof (Hrange b c n m Hb Hc Hn Hm) as Hy1.
  pose proof (Rabs_pos (get weights [c; m])) as Hw0.
  pose proof (Rabs_pos (get y [b; c; n; m])) as Hy0. nra.
Qed.

(** X17. The transition step of the block adds a bounded term to the latent
    tokens: for a block built by [__init__] and weights of shape
    [(C, 2 * num_basis)], the step is
    [compl_mul2d(get_basis(latent), weights) + latent], the term
    [compl_mul2d(get_basis(latent), weights)] has the shape of the tokens,
    and each of its entries is in absolute value at most the sum of the
    absolute weights of its channel, however large the token values are
    (in exact arithmetic; in float32 up to the rounding of the sums). *)
Theorem transition_term_bounded_by_weights :
  forall (width num_basis : nat) (patch_size : nat * nat) (num_token : nat)
         (self : NeuralSpectralBlock2d.t) (weights latent : tensor) (B C N : nat),
    NeuralSpectralBlock2d.init width num_basis patch_size num_token = Ok self ->
    shape latent = [B; C; N] ->
    shape weights = [C; num_basis * 2] ->
    exists y s,
      NeuralSpectralBlock2d.get_basis self latent = Ok y /\
      compl_mul2d y weights = Ok s /\
      shape s = [B; C; N] /\
      transition self weights latent = bop Rplus s latent /\
      forall b c n, b < B -> c < C -> n < N ->
        (Rabs (get s [b; c; n])
         <= rsum (fun m => Rabs (get weights [c; m])) (num_basis * 2))%R.
Proof. intros. eapply transition_term_bounded; eassumption. Qed.

Lemma transition_term_bounded_by_weights_witness :
  exists y s,
    NeuralSpectralBlock2d.get_basis example_block (mkTensor [1; 1; 2] [3; -7]%R) = Ok y /\
    compl_mul2d y (mkTensor [1; 4] [1 / 2; 1 / 4; -1; 0]%R) = Ok s /\
    shape s = [1; 1; 2] /\
    transition example_block
      (mkTensor [1; 4] [1 / 2; 1 / 4; -1; 0]%R) (mkTensor [1; 1; 2] [3; -7]%R)
    = bop Rplus s (mkTensor [1; 1; 2] [3; -7]%R) /\
    forall b c n, b < 1 -> c < 1 -> n < 2 ->
      (Rabs (get s [b; c; n])
       <= rsum (fun m => Rabs (get (mkTensor [1; 4]%nat [1 / 2; 1 / 4; -1; 0]) [c; m]))
               (2 * 2)%nat)%R.
Proof.
  apply (@transition_term_bounded_by_weights 8 2 (2, 2) 4 example_block
           (mkTensor [1; 4] [1 / 2; 1 / 4; -1; 0]%R) (mkTensor [1; 1; 2] [3; -7]%R)
           1 1 2); reflexivity.
Defined.

(** ** The coordinate grid *)

Lemma linspace01_entry num i :
  i < num ->
  get (linspace01 num) [i]
  = (if num =? 1 then 0 else INR i / INR (num - 1))%R.
Proof.
  intros Hi. unfold linspace01.
  rewrite get_tabulate by (repeat constructor; assumption).
  destruct (num =? 1); [reflexivity|]. unfold Rdiv. ring.
Qed.

Lemma linspace01_range num i :
  i < num -> (0 <= get (linspace01 num) [i] <= 1)%R.
Proof.
  intros Hi. rewrite linspace01_entry by assumption.
  destruct (Nat.eqb_spec num 1) as [|Hne]; [lra|].
  assert (H1 : (0 < INR (num - 1))%R) by (apply lt_0_INR; lia).
  assert (H2 : (INR i <= INR (num - 1))%R) by (apply le_INR; lia).
  pose proof (pos_INR i) as H3.
  split.
  - apply Rmult_le_pos; [assumption | apply Rlt_le, Rinv_0_lt_compat; assumption].
  - apply (Rmult_le_reg_r (INR (num - 1))); [assumption|].
    unfold Rdiv. rewrite Rmult_assoc, Rinv_l by lra. lra.
Qed.

Lemma get_grid_entries B H W rest :
  exists g,
    get_grid (B :: H :: W :: rest) = Ok g /\
    shape g = [B; H; W; 2] /\
    forall b i j, b < B -> i < H -> j < W ->
      get g [b; i; j; 0] = get (linspace01 H) [i] /\
      get g [b; i; j; 1] = get (linspace01 W) [j].
Proof.
  unfold get_grid.
  rewrite (view_ok (linspace01 H) [1; H; 1; 1])
    by (unfold linspace01; cbn [shape tabulate numel fold_right]; lia).
  cbn [bind].
  rewrite (view_ok (linspace01 W) [1; 1; W; 1])
    by (unfold linspace01; cbn [shape tabulate numel fold_right]; lia).
  unfold tensor_repeat. cbn [shape length Nat.ltb Nat.leb Nat.eqb bind zip_with].
  unfold cat_last. cbn [shape tabulate].
  rewrite !Nat.mul_1_l, !Nat.mul_1_r, !Nat.eqb_refl. cbn [andb].
  eexists. split; [reflexivity|]. split; [reflexivity|].
  intros b i j Hb Hi Hj. split.
  - rewrite get_tabulate by (apply in_bounds4_intro; lia).
    cbn [Nat.ltb Nat.leb].
    match goal with |- get ?t _ = _ =>
      change t with (tabulate [B; H; W; 1]
        (fun idx => get (mkTensor [1; H; 1; 1] (data (linspace01 H)))
                        (zip_with Nat.modulo idx [1; H; 1; 1]))) end.
    rewrite get_tabulate by (apply in_bounds4_intro; lia).
    cbn [zip_with]. rewrite !Nat.mod_1_r, (Nat.mod_small i H) by assumption.
    unfold get, linspace01. cbn [shape data tabulate ravel numel fold_right].
    f_equal; lia.
  - rewrite get_tabulate by (apply in_bounds4_intro; lia).
    cbn [Nat.ltb Nat.leb Nat.sub].
    match goal with |- get ?t _ = _ =>
      change t with (tabulate [B; H; W; 1]
        (fun idx => get (mkTensor [1; 1; W; 1] (data (linspace01 W)))
                        (zip_with Nat.modulo idx [1; 1; W; 1]))) end.
    rewrite get_tabulate by (apply in_bounds4_intro; lia).
    cbn [zip_with]. rewrite !Nat.mod_1_r, (Nat.mod_small j W) by assumption.
    unfold get, linspace01. cbn [shape data tabulate ravel numel fold_right].
    f_equal; lia.
Qed.

Lemma with_grid_entries x B H W Cin :
  shape x = [B; H; W; Cin] ->
  exists xg,
    with_grid x = Ok xg /\
    shape xg = [B; H; W; Cin + 2] /\
    forall b i j, b < B -> i < H -> j < W ->
      (forall c, c < Cin -> get xg [b; i; j; c] = get x [b; i; j; c]) /\
      get xg [b; i; j; Cin] = (if H =? 1 then 0 else INR i / INR (H - 1))%R /\
      get xg [b; i; j; Cin + 1] = (if W =? 1 then 0 else INR j / INR (W - 1))%R /\
      (0 <= get xg [b; i; j; Cin] <= 1)%R /\
      (0 <= get xg [b; i; j; (Cin + 1)%nat] <= 1)%R.
Proof.
  intros Hs. unfold with_grid. rewrite Hs.
  destruct (get_grid_entries B H W [Cin]) as (g & Hg & Sg & Hent).
  rewrite Hg. cbn [bind].
  unfold cat_last. rewrite Hs, Sg, !Nat.eqb_refl. cbn [andb].
  eexists. split; [reflexivity|]. split; [reflexivity|].
  intros b i j Hb Hi Hj.
  destruct (Hent b i j Hb Hi Hj) as [E0 E1].
  assert (G0 : get (tabulate [B; H; W; Cin + 2]
                      (fun idx => match idx with
                                  | [b0; c; n; m] =>
                                      if m <? Cin then get x [b0; c; n; m]
                                      else get g [b0; c; n; m - Cin]
                                  | _ => 0%R
                                  end)) [b; i; j; Cin]
               = get (linspace01 H) [i]).
  { rewrite get_tabulate by (apply in_bounds4_intro; lia).
    rewrite Nat.ltb_irrefl, Nat.sub_diag. exact E0. }
  assert (G1 : get (tabulate [B; H; W; Cin + 2]
                      (fun idx => match idx with
                                  | [b0; c; n; m] =>
                                      if m <? Cin then get x [b0; c; n; m]
                                      else get g [b0; c; n; m - Cin]
                                  | _ => 0%R
                                  end)) [b; i; j; Cin + 1]
               = get (linspace01 W) [j]).
  { rewrite get_tabulate by (apply in_bounds4_intro; lia).
    destruct (Nat.ltb_spec (Cin + 1) Cin) as [F|_]; [lia|].
    replace (Cin + 1 - Cin) with 1 by lia. exact E1. }
  split.
  - intros c Hc. rewrite get_tabulate by (apply in_bounds4_intro; lia).
    destruct (Nat.ltb_spec c Cin) as [_|F]; [reflexivity | lia].
  - rewrite G0, G1.
    split; [apply linspace01_entry; assumption|].
    split; [apply linspace01_entry; assumption|].
    split; apply linspace01_range; assumption.
Qed.

(** X18. The start of [LSM_2D.forward] appends two coordinate channels to
    an input of shape [(B, H, W, C)]: the result has [C + 2] channels, the
    first [C] are the input, channel [C] at mesh point (i, j) is
    [i / (H - 1)] and channel [C + 1] is [j / (W - 1)] (0 on an axis with a
    single point) in every batch element, so both lie in [0, 1]. *)
Theorem forward_appends_unit_square_coordinates :
  forall (x : tensor) (B H W Cin : nat),
    shape x = [B; H; W; Cin] ->
    exists xg,
      with_grid x = Ok xg /\
      shape xg = [B; H; W; Cin + 2] /\
      forall b i j, b < B -> i < H -> j < W ->
        (forall c, c < Cin -> get xg [b; i; j; c] = get x [b; i; j; c]) /\
        get xg [b; i; j; Cin] = (if H =? 1 then 0 else INR i / INR (H - 1))%R /\
        get xg [b; i; j; Cin + 1] = (if W =? 1 then 0 else INR j / INR (W - 1))%R /\
        (0 <= get xg [b; i; j; Cin] <= 1)%R /\
        (0 <= get xg [b; i; j; (Cin + 1)%nat] <= 1)%R.
Proof. intros x B H W Cin. apply with_grid_entries. Qed.

Lemma forward_appends_unit_square_coordinates_witness :
  exists xg,
    with_grid (mkTensor [1; 2; 3; 1] [5; 6; 7; 8; 9; 10]%R) = Ok xg /\
    shape xg = [1; 2; 3; 1 + 2] /\
    forall b i j, b < 1 -> i < 2 -> j < 3 ->
      (forall c, c < 1 ->
         get xg [b; i; j; c] = get (mkTensor [1; 2; 3; 1] [5; 6; 7; 8; 9; 10]%R) [b; i; j; c]) /\
      get xg [b; i; j; 1] = (if 2 =? 1 then 0 else INR i / INR (2 - 1))%R /\
      get xg [b; i; j; 1 + 1] = (if 3 =? 1 then 0 else INR j / INR (3 - 1))%R /\
      (0 <= get xg [b; i; j; 1%nat] <= 1)%R /\
      (0 <= get xg [b; i; j; (1 + 1)%nat] <= 1)%R.
Proof.
  apply (@forward_appends_unit_square_coordinates
           (mkTensor [1; 2; 3; 1] [5; 6; 7; 8; 9; 10]%R) 1 2 3 1).
  reflexivity.
Defined.

(** ** Data preparation *)

Lemma mesh_points_value h r : 0 < r -> mesh_points h r = Ok (range_len h r).
Proof.
  intros Hr. unfold mesh_points, range_len.
  destruct (Nat.eqb_spec r 0) as [|_]; [lia|]. f_equal.
  destruct (Nat.ltb_spec 0 h) as [Hh|Hh].
  - replace (Z.of_nat h - 1 + Z.of_nat r)%Z with (Z.of_nat (h - 1 + 1 * r)) by lia.
    rewrite Z.quot_div_nonneg by lia.
    rewrite <- Nat2Z.inj_div, Nat2Z.id.
    apply Nat.div_add. lia.
  - replace h with 0 by lia.
    rewrite Z.quot_small by lia. reflexivity.
Qed.

Lemma range_len_pos h r : 0 < h -> 0 < range_len h r.
Proof.
  intros Hh. unfold range_len.
  destruct (Nat.ltb_spec 0 h); lia.
Qed.

Lemma mesh_points_cover h r :
  0 < r ->
  exists s,
    mesh_points h r = Ok s /\
    Nat.min s (range_len h r) = range_len h r /\
    (0 < h -> 0 < s /\ (s - 1) * r <= h - 1 /\
              ((s - 1) * r = h - 1 <-> (h - 1) mod r = 0)).
Proof.
  intros Hr. exists (range_len h r).
  split; [apply mesh_points_value; assumption|].
  split; [apply Nat.min_id|].
  intros Hh. unfold range_len.
  destruct (Nat.ltb_spec 0 h) as [_|F]; [|lia].
  replace ((h - 1) / r + 1 - 1) with ((h - 1) / r) by lia.
  split; [lia|].
  pose proof (Nat.Div0.mul_div_le (h - 1) r) as Hle.
  split; [lia|].
  rewrite <- (Nat.Div0.div_exact (h - 1) r). lia.
Qed.

(** X19. For a positive stride [r] the mesh size [int(((h - 1) / r) + 1)]
    is the number of points the strided slice [::r] keeps of an axis of
    [h] points, so the following crop [:s] removes nothing; for [h > 0] the
    last kept point [(s - 1) * r] is the last point [h - 1] of the axis
    exactly when [r] divides [h - 1]. *)
Theorem mesh_size_is_strided_extent :
  forall h r : nat,
    0 < r ->
    exists s,
      mesh_points h r = Ok s /\
      Nat.min s (range_len h r) = range_len h r /\
      (0 < h -> 0 < s /\ (s - 1) * r <= h - 1 /\
                ((s - 1) * r = h - 1 <-> (h - 1) mod r = 0)).
Proof. intros h r. apply mesh_points_cover. Qed.

Lemma mesh_size_is_strided_extent_witness :
  exists s,
    mesh_points 421 5 = Ok s /\
    Nat.min s (range_len 421 5) = range_len 421 5 /\
    (0 < 421 -> 0 < s /\ (s - 1) * 5 <= 421 - 1 /\
                ((s - 1) * 5 = 421 - 1 <-> (421 - 1) mod 5 = 0)).
Proof. apply (@mesh_size_is_strided_extent 421 5). lia. Defined.





(** ** The reader of the data files *)

(** What every reader in use satisfies: [old_mat] is still set, and the
    data are the complete contents of some file. *)
Lemma reader_call_keeps_state loadmat (r : MatReader.t) (c : MatReader.call) :
  MatReader.old_mat r = true /\
  (exists p d, loadmat p = Some d /\ MatReader.data r = Some d) ->
  MatReader.old_mat (MatReader.after loadmat r c) = true /\
  (exists p d, loadmat p = Some d /\
               MatReader.data (MatReader.after loadmat r c) = Some d).
Proof.
  intros [Hold (p & d & Hp & Hd)].
  destruct c as [b|b|b|path]; cbn [MatReader.after MatReader.set_cuda
    MatReader.set_torch MatReader.set_float MatReader.old_mat MatReader.data];
    try (split; [assumption | exists p, d; split; assumption]).
  unfold MatReader.load_file, MatReader._load_file. cbn [MatReader.file_path].
  destruct (loadmat path) as [d'|] eqn:E; cbn [fst MatReader.old_mat MatReader.data].
  - split; [assumption | exists path, d'; split; [assumption | reflexivity]].
  - split; [assumption | exists p, d; split; assumption].
Qed.

Lemma reader_calls_keep_state loadmat (calls : list MatReader.call) :
  forall r : MatReader.t,
    MatReader.old_mat r = true /\
    (exists p d, loadmat p = Some d /\ MatReader.data r = Some d) ->
    MatReader.old_mat (fold_left (MatReader.after loadmat) calls r) = true /\
    (exists p d, loadmat p = Some d /\
                 MatReader.data (fold_left (MatReader.after loadmat) calls r) = Some d).
Proof.
  induction calls as [|c calls IH]; intros r H; cbn [fold_left]; [exact H|].
  apply IH, reader_call_keeps_state, H.
Qed.

Lemma reader_init_state loadmat path tt tc tf r0 :
  MatReader.init loadmat path tt tc tf = MatReader.Returns r0 ->
  MatReader.old_mat r0 = true /\
  (exists p d, loadmat p = Some d /\ MatReader.data r0 = Some d).
Proof.
  unfold MatReader.init, MatReader._load_file. cbn [MatReader.file_path].
  destruct (loadmat path) as [d|] eqn:E; cbn [fst snd]; [|discriminate].
  intros [= <-]. cbn [MatReader.old_mat MatReader.data].
  split; [reflexivity | exists path, d; split; [assumption | reflexivity]].
Qed.

Lemma read_field_of_state float32 (r : MatReader.t) d field :
  MatReader.old_mat r = true -> MatReader.data r = Some d ->
  MatReader.read_field float32 r field
  = match MatReader.lookup field d with
    | None => MatReader.KeyError
    | Some (MatReader.Array x) =>
        MatReader.Returns
          (MatReader.mk_value
             (MatReader.Array (if MatReader.to_float r then astype float32 x else x))
             (MatReader.to_torch r)
             (MatReader.to_torch r && MatReader.to_cuda r))
    | Some (MatReader.NoArray obj) =>
        if MatReader.to_float r then MatReader.AttributeError
        else if MatReader.to_torch r then MatReader.TypeError
        else MatReader.Returns (MatReader.mk_value (MatReader.NoArray obj) false false)
    end.
Proof.
  intros Hold Hd. unfold MatReader.read_field. rewrite Hd, Hold.
  destruct (MatReader.lookup field d) as [[x|obj]|]; [| |reflexivity]; cbn [negb].
  - destruct (MatReader.to_float r), (MatReader.to_torch r); reflexivity.
  - reflexivity.
Qed.

(** X21. Whatever calls of [set_cuda], [set_torch], [set_float] and
    [load_file] (failing loads included) follow a successful [__init__],
    the reader never takes the transposing branch: [old_mat] stays set and
    the data are the complete dict of one file that [loadmat] could read.
    [read_field] raises [KeyError] for a key the dict lacks; for an array
    it returns the stored array with its axes in file order, cast to
    float32 exactly when [to_float] is set, as a torch tensor when
    [to_torch] is set and on the GPU only when both [to_torch] and
    [to_cuda] are; for a key of the dict that holds no array (the header
    entries) it raises [AttributeError] when [to_float] is set, else
    [TypeError] when [to_torch] is set, and else returns the object. *)
Theorem read_field_never_transposes :
  forall (loadmat : String.string -> option (list (String.string * MatReader.entry)))
         (float32 : R -> R) (path : String.string) (tt tc tf : bool)
         (r0 : MatReader.t) (calls : list MatReader.call),
    MatReader.init loadmat path tt tc tf = MatReader.Returns r0 ->
    MatReader.old_mat (fold_left (MatReader.after loadmat) calls r0) = true /\
    exists p d,
      loadmat p = Some d /\
      MatReader.data (fold_left (MatReader.after loadmat) calls r0) = Some d /\
      forall field,
        MatReader.read_field float32 (fold_left (MatReader.after loadmat) calls r0) field
        = match MatReader.lookup field d with
          | None => MatReader.KeyError
          | Some (MatReader.Array x) =>
              MatReader.Returns
                (MatReader.mk_value
                   (MatReader.Array
                      (if MatReader.to_float (fold_left (MatReader.after loadmat) calls r0)
                       then astype float32 x else x))
                   (MatReader.to_torch (fold_left (MatReader.after loadmat) calls r0))
                   (MatReader.to_torch (fold_left (MatReader.after loadmat) calls r0)
                    && MatReader.to_cuda (fold_left (MatReader.after loadmat) calls r0)))
          | Some (MatReader.NoArray obj) =>
              if MatReader.to_float (fold_left (MatReader.after loadmat) calls r0)
              then MatReader.AttributeError
              else if MatReader.to_torch (fold_left (MatReader.after loadmat) calls r0)
                   then MatReader.TypeError
                   else MatReader.Returns
                          (MatReader.mk_value (MatReader.NoArray obj) false false)
          end.
Proof.
  intros loadmat float32 path tt tc tf r0 calls Hinit.
  destruct (@reader_calls_keep_state loadmat calls r0
              (@reader_init_state loadmat path tt tc tf r0 Hinit))
    as [Hold (p & d & Hp & Hd)].
  split; [exact Hold|]. exists p, d. split; [exact Hp|]. split; [exact Hd|].
  intros field. apply read_field_of_state; assumption.
Qed.

Lemma read_field_never_transposes_witness :
  MatReader.old_mat MatReader.example_reader = true /\
  exists p d,
    MatReader.example_loadmat p = Some d /\
    MatReader.data MatReader.example_reader = Some d /\
    forall field,
      MatReader.read_field (fun v : R => v) MatReader.example_reader field
      = match MatReader.lookup field d with
        | None => MatReader.KeyError
        | Some (MatReader.Array x) =>
            MatReader.Returns
              (MatReader.mk_value
                 (MatReader.Array
                    (if MatReader.to_float MatReader.example_reader
                     then astype (fun v : R => v) x else x))
                 (MatReader.to_torch MatReader.example_reader)
                 (MatReader.to_torch MatReader.example_reader
                  && MatReader.to_cuda MatReader.example_reader))
        | Some (MatReader.NoArray obj) =>
            if MatReader.to_float MatReader.example_reader
            then MatReader.AttributeError
            else if MatReader.to_torch MatReader.example_reader
                 then MatReader.TypeError
                 else MatReader.Returns
                        (MatReader.mk_value (MatReader.NoArray obj) false false)
        end.
Proof.
  unfold MatReader.example_reader.
  apply (@read_field_never_transposes MatReader.example_loadmat (fun v : R => v)
           MatReader.TRAIN_PATH true false true).
  reflexivity.
Defined.

(** ** Checkpoints *)

Lemma checkpoints_filter step_size epochs :
  0 < step_size ->
  checkpoints step_size epochs = Ok (filter (fun ep => ep mod step_size =? 0) epochs).
Proof.
  intros Hs. induction epochs as [|ep epochs IH]; cbn [checkpoints filter].
  - reflexivity.
  - destruct (Nat.eqb_spec step_size 0) as [|_]; [lia|].
    rewrite IH. cbn [bind]. destruct (ep mod step_size =? 0); reflexivity.
Qed.

Lemma main_checkpoints_saved epochs step_size :
  0 < step_size -> 0 < epochs ->
  exists saved,
    main_checkpoints epochs step_size = Ok saved /\
    (forall ep, In ep saved <-> ep < epochs /\ ep mod step_size = 0) /\
    In 0 saved /\
    In ((epochs - 1) / step_size * step_size) saved /\
    (forall ep, In ep saved -> ep <= (epochs - 1) / step_size * step_size) /\
    (In (epochs - 1) saved <-> (epochs - 1) mod step_size = 0).
Proof.
  intros Hs He. unfold main_checkpoints. rewrite checkpoints_filter by assumption.
  eexists. split; [reflexivity|].
  assert (Hin : forall ep,
             In ep (filter (fun ep => ep mod step_size =? 0) (seq 0 epochs))
             <-> ep < epochs /\ ep mod step_size = 0).
  { intros ep. rewrite filter_In, in_seq, Nat.eqb_eq. lia. }
  pose proof (Nat.Div0.mul_div_le (epochs - 1) step_size) as Hle.
  split; [exact Hin|].
  split; [apply Hin; split; [lia | apply Nat.Div0.mod_0_l]|].
  split; [apply Hin; split; [lia | apply Nat.Div0.mod_mul]|].
  split.
  - intros ep Hep. apply Hin in Hep. destruct Hep as [Hlt Hmod].
    apply Nat.Div0.div_exact in Hmod.
    assert (Hd : ep / step_size <= (epochs - 1) / step_size)
      by (apply Nat.Div0.div_le_mono; lia).
    rewrite Hmod at 1. nia.
  - rewrite Hin. split; [intros [_ H]; exact H | intros H; split; [lia | exact H]].
Qed.

(** X22. With a positive [step_size] and at least one epoch, [main] saves
    the model at the end of exactly the epochs below [epochs] that are
    multiples of [step_size]: always after epoch 0, last after epoch
    [((epochs - 1) // step_size) * step_size], and after the final epoch
    [epochs - 1] only when [step_size] divides [epochs - 1]. *)
Theorem checkpoints_at_multiples_of_step_size :
  forall epochs step_size : nat,
    0 < step_size -> 0 < epochs ->
    exists saved,
      main_checkpoints epochs step_size = Ok saved /\
      (forall ep, In ep saved <-> ep < epochs /\ ep mod step_size = 0) /\
      In 0 saved /\
      In ((epochs - 1) / step_size * step_size) saved /\
      (forall ep, In ep saved -> ep <= (epochs - 1) / step_size * step_size) /\
      (In (epochs - 1) saved <-> (epochs - 1) mod step_size = 0).
Proof. intros epochs step_size. apply main_checkpoints_saved. Qed.

Lemma checkpoints_at_multiples_of_step_size_witness :
  exists saved,
    main_checkpoints 500 100 = Ok saved /\
    (forall ep, In ep saved <-> ep < 500 /\ ep mod 100 = 0) /\
    In 0 saved /\
    In ((500 - 1) / 100 * 100) saved /\
    (forall ep, In ep saved -> ep <= (500 - 1) / 100 * 100) /\
    (In (500 - 1) saved <-> (500 - 1) mod 100 = 0).
Proof. apply (@checkpoints_at_multiples_of_step_size 500 100); lia. Defined.
